(** * Gateway routing and degradation engine: a shallow embedding

    The development follows the JavaScript sources
    - [shared/serviceDiscovery.js]   (class [ServiceDiscovery]),
    - [shared/messageQueue.js]       (class [MessageQueueManager]),
    - [services/gateway/server.js]   (round robin, [proxyRequest], stats).

    Asynchronous functions are run to completion one at a time (the event
    loop is single threaded); what the outside world answers at each
    suspension point (Consul, Redis/Bull, the HTTP wire, the clock) is an
    explicit argument of the function that awaits it. *)

From stdpp Require Import base option list gmap strings pretty.

Local Open Scope Z_scope.

(* ===================================================================== *)
(** * JavaScript values the sources rely on *)
(* ===================================================================== *)

Module Js.

Inductive ErrorKind := PlainError | TypeError | AxiosError | ExternalError.

(** A thrown value: the sources only ever read [error.message]. *)
Record JsError := mkError { kind : ErrorKind; message : string }.

(** Settled state of an awaited promise, or completion of a call that may
    throw. *)
Inductive Outcome (A : Type) :=
| Resolved (a : A)
| Rejected (e : JsError).
Arguments Resolved {A} a.
Arguments Rejected {A} e.

(** [try { body } catch (error) { handler }] *)
Definition try_catch {A} (body : Outcome A) (handler : JsError -> Outcome A)
  : Outcome A :=
  match body with
  | Resolved a => Resolved a
  | Rejected e => handler e
  end.

(** Numbers as the cursor table holds them: an integer or [NaN]
    ([undefined] coerces to [NaN] in [%] and [+]). *)
Inductive JsNum := Num (z : Z) | NaN.

(** [x + 1] *)
Definition add1 (x : JsNum) : JsNum :=
  match x with
  | Num z => Num (z + 1)
  | NaN => NaN
  end.

(** [x % n] for an integer [n]: the sign follows the dividend, and a zero
    divisor gives [NaN]. *)
Definition rem (x : JsNum) (n : Z) : JsNum :=
  match x with
  | Num z => if decide (n = 0) then NaN else Num (Z.rem z n)
  | NaN => NaN
  end.

(** [arr[x]]: [undefined] ([None]) unless [x] is an in-range index. *)
Definition index {A} (arr : list A) (x : JsNum) : option A :=
  match x with
  | Num z => if decide (0 <= z) then arr !! Z.to_nat z else None
  | NaN => None
  end.

(** A [Map] keyed by strings, in insertion order. *)
Fixpoint map_get {V} (m : list (string * V)) (k : string) : option V :=
  match m with
  | [] => None
  | (k', v) :: m' => if decide (k' = k) then Some v else map_get m' k
  end.

(** [m.set(k, v)]: an existing key keeps its position, a new key goes
    last. *)
Fixpoint map_set {V} (m : list (string * V)) (k : string) (v : V)
  : list (string * V) :=
  match m with
  | [] => [(k, v)]
  | (k', v') :: m' =>
      if decide (k' = k) then (k', v) :: m' else (k', v') :: map_set m' k v
  end.

End Js.

(* ===================================================================== *)
(** * shared/serviceDiscovery.js *)
(* ===================================================================== *)

Module Discovery.
Import Js.

(** An entry of the in-memory registry, or a discovered instance.  The
    Consul branch of [discoverServices] builds objects without
    [lastCheck], hence the option. *)
Record ServiceInstance := mkInstance {
  inst_id : string;
  address : string;
  port : Z;
  healthy : bool;
  lastCheck : option Z
}.

(** What [consul.health.service] yields per passing service:
    [Service.ID], [Service.Address], [Service.Port]. *)
Record ConsulService := mkConsulService {
  ID : string;
  Address : string;
  Port : Z
}.

(** The fields of [this] that the methods use. *)
Record ServiceDiscovery := mkDiscovery {
  useConsul : bool;
  services : list (string * list ServiceInstance)
}.

(** State right after [constructor()]: [init] has not heard from Consul
    yet. *)
Definition constructed : ServiceDiscovery :=
  {| useConsul := false; services := [] |}.

(** [init]: the awaited [consul.agent.self()] settles. *)
Definition init (sd : ServiceDiscovery) (self : Outcome unit)
  : ServiceDiscovery :=
  match self with
  | Resolved _ => {| useConsul := true; services := services sd |}
  | Rejected _ => {| useConsul := false; services := services sd |}
  end.

(** [instances.findIndex(instance => instance.id === id)] *)
Definition findIndex (instances : list ServiceInstance) (id : string)
  : option nat :=
  fst <$> list_find (fun instance => inst_id instance = id) instances.

Definition fallbackRegister (sd : ServiceDiscovery) (now : Z)
    (name id : string) (port : Z) : ServiceDiscovery :=
  let services1 :=
    match map_get (services sd) name with
    | Some _ => services sd
    | None => map_set (services sd) name []
    end in
  let instances := default [] (map_get services1 name) in
  let serviceInstance :=
    {| inst_id := id; address := "localhost"; port := port;
       healthy := true; lastCheck := Some now |} in
  let instances' :=
    match findIndex instances id with
    | Some existingIndex => <[existingIndex := serviceInstance]> instances
    | None => instances ++ [serviceInstance]
    end in
  {| useConsul := useConsul sd;
     services := map_set services1 name instances' |}.

(** The object literal [serviceInstance] of [fallbackRegister]. *)
Definition fresh_instance (now : Z) (id : string) (port : Z)
  : ServiceInstance :=
  {| inst_id := id; address := "localhost"; port := port;
     healthy := true; lastCheck := Some now |}.

(** [registerService]; [consul_register] is how the awaited
    [consul.agent.service.register] settles when it is called. *)
Definition registerService (sd : ServiceDiscovery)
    (consul_register : Outcome unit) (now : Z)
    (name id : string) (port : Z) : ServiceDiscovery :=
  if useConsul sd then
    match consul_register with
    | Resolved _ => sd
    | Rejected _ => fallbackRegister sd now name id port
    end
  else fallbackRegister sd now name id port.

Definition fallbackDiscover (sd : ServiceDiscovery) (serviceName : string)
  : list ServiceInstance :=
  let instances := default [] (map_get (services sd) serviceName) in
  filter (fun instance => healthy instance = true) instances.

(** [discoverServices]; [consul_health] is how the awaited
    [consul.health.service({service, passing: true})] settles when it is
    called. *)
Definition discoverServices (sd : ServiceDiscovery)
    (consul_health : Outcome (list ConsulService)) (serviceName : string)
  : list ServiceInstance :=
  if useConsul sd then
    match consul_health with
    | Resolved found =>
        (fun service =>
           {| inst_id := ID service; address := Address service;
              port := Port service; healthy := true;
              lastCheck := None |}) <$> found
    | Rejected _ => fallbackDiscover sd serviceName
    end
  else fallbackDiscover sd serviceName.

(** The [for ... of this.services.entries()] loop of [deregisterService]:
    the first service (in insertion order) that holds the id loses that
    instance, then [break]. *)
Fixpoint deregister_loop (entries : list (string * list ServiceInstance))
    (id : string) : list (string * list ServiceInstance) :=
  match entries with
  | [] => []
  | (serviceName, instances) :: rest =>
      match findIndex instances id with
      | Some index => (serviceName, delete index instances) :: rest
      | None => (serviceName, instances) :: deregister_loop rest id
      end
  end.

(** [deregisterService]: the Consul call is attempted when [useConsul],
    its failure is only logged; the in-memory registry is always
    updated. *)
Definition deregisterService (sd : ServiceDiscovery)
    (consul_deregister : Outcome unit) (id : string) : ServiceDiscovery :=
  {| useConsul := useConsul sd;
     services := deregister_loop (services sd) id |}.

(** One probe of [healthCheck]: [fetch] resolves with [response.ok], or
    throws. *)
Definition probe_instance (probe : string -> Z -> Outcome bool) (now : Z)
    (instance : ServiceInstance) : ServiceInstance :=
  match probe (address instance) (port instance) with
  | Resolved ok =>
      {| inst_id := inst_id instance; address := address instance;
         port := port instance; healthy := ok; lastCheck := Some now |}
  | Rejected _ =>
      {| inst_id := inst_id instance; address := address instance;
         port := port instance; healthy := false; lastCheck := Some now |}
  end.

Definition healthCheck (sd : ServiceDiscovery)
    (probe : string -> Z -> Outcome bool) (now : Z) : ServiceDiscovery :=
  if useConsul sd then sd
  else
    {| useConsul := useConsul sd;
       services :=
         (fun entry : string * list ServiceInstance =>
            (entry.1, probe_instance probe now <$> entry.2))
           <$> services sd |}.

End Discovery.

(* ===================================================================== *)
(** * shared/messageQueue.js *)
(* ===================================================================== *)

Module MessageQueue.
Import Js.

Inductive Status := waiting | processing | completed | failed.

(** The object [publishEvent] hands to [add]:
    [{event, data, timestamp, source}]. *)
Record EventData := mkEventData {
  event : string;
  data : list (string * string);
  timestamp : Z;
  source : string
}.

(** A job of the in-memory queue.  [id] is [Date.now() + Math.random()];
    no method reads it except to log it, and it is kept as the number the
    caller supplies. *)
Record Job := mkJob {
  job_id : Z;
  name : string;
  job_data : EventData;
  createdAt : Z;
  status : Status;
  error : option string
}.

(** An async processor: resolves, or throws. *)
Definition Processor := Job -> Outcome unit.

(** What [queue.process(...)] receives as its first argument:
    [subscribeToEvents] passes the event name first and the function
    second. *)
Inductive ProcessArg :=
| ArgName (eventName : string)
| ArgFunction (processor : Processor).

(** A value of [this.queues]: a Bull queue (owned by the broker), or the
    object literal [{jobs: [], processors: [], add, process}]. *)
Inductive Queue :=
| BullQueue (queueName : string)
| FallbackQueue (queueName : string) (jobs : list Job)
    (processors : list Processor).

(** The fields of [this].  [this.fallbackQueue] is a [Map] on which the
    closures of [createQueue] read the properties [jobs] and
    [processors]; a property that was never assigned is [undefined]
    ([None]). *)
Record MessageQueueManager := mkManager {
  useRedis : bool;
  queues : list (string * Queue);
  fallbackQueue_jobs : option (list Job);
  fallbackQueue_processors : option (list ProcessArg)
}.

Definition constructed : MessageQueueManager :=
  {| useRedis := false; queues := [];
     fallbackQueue_jobs := None; fallbackQueue_processors := None |}.

(** The Redis client's ['connect'] and ['error'] events. *)
Definition on_connect (m : MessageQueueManager) : MessageQueueManager :=
  {| useRedis := true; queues := queues m;
     fallbackQueue_jobs := fallbackQueue_jobs m;
     fallbackQueue_processors := fallbackQueue_processors m |}.

Definition on_error (m : MessageQueueManager) : MessageQueueManager :=
  {| useRedis := false; queues := queues m;
     fallbackQueue_jobs := fallbackQueue_jobs m;
     fallbackQueue_processors := fallbackQueue_processors m |}.

(** [createQueue(name)]: constructing either kind of queue object does
    not throw; the new object replaces any earlier one under [name]. *)
Definition createQueue (m : MessageQueueManager) (queueName : string)
  : MessageQueueManager * Queue :=
  let queue :=
    if useRedis m then BullQueue queueName
    else FallbackQueue queueName [] [] in
  ({| useRedis := useRedis m;
      queues := map_set (queues m) queueName queue;
      fallbackQueue_jobs := fallbackQueue_jobs m;
      fallbackQueue_processors := fallbackQueue_processors m |},
   queue).

Definition getQueue (m : MessageQueueManager) (queueName : string)
  : option Queue :=
  map_get (queues m) queueName.

(** What the outside answers during one [add]: whether Bull's [add]
    settles, the clock, and the random part of the id. *)
Record QueueWorld := mkQueueWorld {
  bull_add : Outcome unit;
  now : Z;
  fresh_id : Z;
  SERVICE_NAME : option string
}.

(** A [setTimeout(() => this.processFallbackJob(name, job), 0)] that has
    been scheduled. *)
Definition Scheduled : Type := string * Job.

(** [queue.add(jobName, data)].  In the object literal, [add] is an arrow
    function, so [this] is the manager and [this.fallbackQueue.jobs] is a
    property of the [Map]: reading [.push] off [undefined] throws. *)
Definition add (m : MessageQueueManager) (w : QueueWorld) (queue : Queue)
    (jobName : string) (d : EventData)
  : MessageQueueManager * Outcome unit * list Scheduled :=
  match queue with
  | BullQueue _ => (m, bull_add w, [])
  | FallbackQueue queueName _ _ =>
      let job :=
        {| job_id := fresh_id w; name := jobName; job_data := d;
           createdAt := now w; status := waiting; error := None |} in
      match fallbackQueue_jobs m with
      | None =>
          (m,
           Rejected
             (mkError TypeError
                "Cannot read properties of undefined (reading 'push')"),
           [])
      | Some jobs =>
          ({| useRedis := useRedis m; queues := queues m;
              fallbackQueue_jobs := Some (jobs ++ [job]);
              fallbackQueue_processors := fallbackQueue_processors m |},
           Resolved (),
           [(queueName, job)])
      end
  end.

(** [queue.process(first, ...)] on the in-memory queue object: the first
    argument is pushed on [this.fallbackQueue.processors]. *)
Definition process (m : MessageQueueManager) (queue : Queue)
    (first : ProcessArg) : MessageQueueManager :=
  match queue with
  | BullQueue _ => m
  | FallbackQueue _ _ _ =>
      {| useRedis := useRedis m; queues := queues m;
         fallbackQueue_jobs := fallbackQueue_jobs m;
         fallbackQueue_processors :=
           Some (default [] (fallbackQueue_processors m) ++ [first]) |}
  end.

(** [this.getQueue('events') || this.createQueue('events')] *)
Definition events_queue (m : MessageQueueManager)
  : MessageQueueManager * Queue :=
  match getQueue m "events" with
  | Some queue => (m, queue)
  | None => createQueue m "events"
  end.

Definition subscribeToEvents (m : MessageQueueManager) (eventName : string)
  : MessageQueueManager :=
  let '(m1, eventQueue) := events_queue m in
  process m1 eventQueue (ArgName eventName).

(** [job.status = s] (with [job.error] as given). *)
Definition with_status (job : Job) (s : Status) (e : option string) : Job :=
  {| job_id := job_id job; name := name job; job_data := job_data job;
     createdAt := createdAt job; status := s; error := e |}.

(** One turn of the [for (const processor of queue.processors)] loop of
    [processFallbackJob]; the second component records every value
    assigned to [job.status], oldest first. *)
Definition run_processor (processor : Processor) (st : Job * list Status)
  : Job * list Status :=
  let '(job, written) := st in
  let job1 := with_status job processing (error job) in
  match processor job1 with
  | Resolved _ =>
      (with_status job1 completed (error job1),
       written ++ [processing; completed])
  | Rejected e =>
      (with_status job1 failed (Some (message e)),
       written ++ [processing; failed])
  end.

Definition run_processors (processors : list Processor) (job : Job)
  : Job * list Status :=
  foldl (fun st processor => run_processor processor st) (job, [])
    processors.

(** [processFallbackJob(queueName, job)]: the job as it is left, and the
    statuses written to it. *)
Definition processFallbackJob (m : MessageQueueManager)
    (queueName : string) (job : Job) : Job * list Status :=
  match map_get (queues m) queueName with
  | Some (FallbackQueue _ _ processors) => run_processors processors job
  | Some (BullQueue _) => (job, [])
  | None => (job, [])
  end.

(** The status a processor's turn ends with. *)
Definition verdict (settled : Outcome unit) : Status :=
  match settled with
  | Resolved _ => completed
  | Rejected _ => failed
  end.

(** [publishEvent(eventName, data)] *)
Definition publishEvent (m : MessageQueueManager) (w : QueueWorld)
    (eventName : string) (d : list (string * string))
  : MessageQueueManager * Outcome unit * list Scheduled :=
  let '(m1, eventQueue) := events_queue m in
  let '(m2, added, scheduled) :=
    add m1 w eventQueue eventName
      {| event := eventName; data := d; timestamp := now w;
         source := default "unknown" (SERVICE_NAME w) |} in
  (m2, try_catch added (fun error => Resolved ()), scheduled).

End MessageQueue.

(* ===================================================================== *)
(** * services/gateway/server.js *)
(* ===================================================================== *)

Module Gateway.
Import Js Discovery.

(** What the round robin hands to [proxyRequest]:
    [{url, healthy, requests}]. *)
Record Target := mkTarget {
  url : string;
  target_healthy : bool;
  requests : Z
}.

(** Module-level state of the gateway process: the two facade singletons
    it imports, and its own tables.  [serviceRegistry] is a [Map] that the
    code reads with [serviceRegistry[serviceName]], so what counts is its
    array-valued own properties; [requestCounts] is keyed by
    ["address:port"]; [currentIndex] is a plain object. *)
Record State := mkState {
  discovery : ServiceDiscovery;
  messageQueue : MessageQueue.MessageQueueManager;
  serviceRegistry : gmap string (list Target);
  requestCounts : gmap string Z;
  currentIndex : gmap string JsNum
}.

(** [currentIndex[serviceName]] as a number: a missing property is
    [undefined], which [%] and [+] coerce to [NaN]. *)
Definition cursor (st : State) (serviceName : string) : JsNum :=
  default NaN (currentIndex st !! serviceName).

(** [`${service.address}:${service.port}`] *)
Definition serviceKey (service : ServiceInstance) : string :=
  address service +:+ ":" +:+ pretty (port service).

(** [requestCounts.get(key) || 0] *)
Definition count_of (st : State) (key : string) : Z :=
  default 0 (requestCounts st !! key).

Definition no_healthy (serviceName : string) : JsError :=
  mkError PlainError
    ("No healthy " +:+ serviceName +:+ " services available").

Definition selectFromDiscoveredServices (st : State) (serviceName : string)
    (found : list ServiceInstance) : State * Outcome Target :=
  if decide (length found = 0%nat) then
    (st, Rejected (no_healthy serviceName))
  else
    let len := Z.of_nat (length found) in
    let service := index found (rem (cursor st serviceName) len) in
    let st1 :=
      {| discovery := discovery st; messageQueue := messageQueue st;
         serviceRegistry := serviceRegistry st;
         requestCounts := requestCounts st;
         currentIndex :=
           <[serviceName := rem (add1 (cursor st serviceName)) len]>
             (currentIndex st) |} in
    match service with
    | None =>
        (st1,
         Rejected
           (mkError TypeError
              "Cannot read properties of undefined (reading 'address')"))
    | Some service =>
        let currentCount := count_of st1 (serviceKey service) in
        let st2 :=
          {| discovery := discovery st1; messageQueue := messageQueue st1;
             serviceRegistry := serviceRegistry st1;
             requestCounts :=
               <[serviceKey service := currentCount + 1]>
                 (requestCounts st1);
             currentIndex := currentIndex st1 |} in
        (st2,
         Resolved
           {| url := "http://" +:+ serviceKey service;
              target_healthy := healthy service;
              requests := count_of st2 (serviceKey service) |})
    end.

(** The static fallback of [getNextService], below the discovery branch.
    [serviceRegistry[serviceName]] is [undefined] unless such a property
    exists, and [undefined.filter] throws.  Nothing in the sources ever
    stores such a property, so in every state the process can reach this
    function throws at its first line.  If a property were there, the
    object returned would be the registered one itself and the
    [service.requests++] of [proxyRequest] would write into it; the
    [Target] returned here is a copy, so nothing is to be read off this
    model about the contents of a [serviceRegistry] that is not empty. *)
Definition selectFromStaticRegistry (st : State) (serviceName : string)
  : State * Outcome Target :=
  match serviceRegistry st !! serviceName with
  | None =>
      (st,
       Rejected
         (mkError TypeError
            "Cannot read properties of undefined (reading 'filter')"))
  | Some registered =>
      let healthyServices :=
        filter (fun service => target_healthy service = true) registered in
      if decide (length healthyServices = 0%nat) then
        (st, Rejected (no_healthy serviceName))
      else
        let len := Z.of_nat (length healthyServices) in
        match index healthyServices (rem (cursor st serviceName) len) with
        | None =>
            (* [service] is [undefined]; the caller's
               [service.requests++] throws *)
            ({| discovery := discovery st; messageQueue := messageQueue st;
                serviceRegistry := serviceRegistry st;
                requestCounts := requestCounts st;
                currentIndex :=
                  <[serviceName := rem (add1 (cursor st serviceName)) len]>
                    (currentIndex st) |},
             Rejected
               (mkError TypeError
                  "Cannot read properties of undefined (reading 'requests')"))
        | Some service =>
            ({| discovery := discovery st; messageQueue := messageQueue st;
                serviceRegistry := serviceRegistry st;
                requestCounts := requestCounts st;
                currentIndex :=
                  <[serviceName := rem (add1 (cursor st serviceName)) len]>
                    (currentIndex st) |},
             Resolved service)
        end
  end.

(** [getNextService]; [consul_health] settles the discovery query. *)
Definition getNextService (st : State)
    (consul_health : Outcome (list ConsulService)) (serviceName : string)
  : State * Outcome Target :=
  let discoveredServices :=
    discoverServices (discovery st) consul_health serviceName in
  if decide (0 < length discoveredServices)%nat then
    selectFromDiscoveredServices st serviceName discoveredServices
  else selectFromStaticRegistry st serviceName.

(** The inbound request as [proxyRequest] reads it. *)
Record Request := mkRequest {
  method : string;
  path : string;
  body : string;
  headers : list (string * string);
  requestId : string
}.

(** The value of [response.data]: what axios' default [transformResponse]
    makes of the text of a reply body (the parsed value when the text is
    JSON, the text itself when it is not).  The decoding is kept symbolic:
    [Decode body] is the decoded value of [body], not [body]. *)
Inductive Decoded := Decode (body : string).

(** The argument of [res.status(...).json(...)]: [Data d] is
    [res.json(d)], whose body on the wire is [JSON.stringify(d)] (for
    [d = Decode body], the re-serialised value, not the text [body] the
    instance sent), and [ErrorReport] is the gateway's own error object. *)
Inductive ResponseBody :=
| Data (d : Decoded)
| ErrorReport (error message requestId : string).

Record Response := mkResponse {
  statusCode : Z;
  json : ResponseBody
}.

(** The axios request config.  [proxyRequest] sets no [validateStatus],
    so the library default applies. *)
Record AxiosConfig := mkConfig {
  config_method : string;
  config_url : string;
  config_data : string;
  config_headers : list (string * string);
  timeout : Z;
  validateStatus : option (Z -> bool)
}.

Record AxiosResponse := mkAxiosResponse {
  status : Z;
  data : Decoded
}.

(** How the exchange that [axios(config)] starts ends: with a reply, of
    some status and body text (the reply axios settles on, that is, after
    it has followed the redirects it follows by itself), or with no reply
    (refused connection, timeout, too many redirects). *)
Inductive Wire :=
| Reply (status : Z) (data : string)
| NoReply (reason : string).

(** axios' default [validateStatus]: [status >= 200 && status < 300]. *)
Definition default_validateStatus (status : Z) : bool :=
  bool_decide (200 <= status) && bool_decide (status < 300).

(** [await axios(config)]: the promise resolves, with the decoded body, only
    for a final reply whose status passes [validateStatus]; otherwise it
    rejects. *)
Definition axios (config : AxiosConfig) (wire : Wire)
  : Outcome AxiosResponse :=
  match wire with
  | NoReply reason => Rejected (mkError AxiosError reason)
  | Reply status data =>
      if default default_validateStatus (validateStatus config) status
      then Resolved {| status := status; data := Decode data |}
      else
        Rejected
          (mkError AxiosError
             ("Request failed with status code " +:+ pretty status))
  end.

(** What the outside answers during one turn of the retry loop. *)
Record World := mkWorld {
  consul_health : Outcome (list ConsulService);
  queue_world : MessageQueue.QueueWorld;
  wire : string -> Wire
}.

(** One turn of the loop, as the log lines report it. *)
Record Attempt := mkAttempt {
  attempt : Z;
  target : option string;
  failure : option JsError
}.

Definition with_queue (st : State) (m : MessageQueue.MessageQueueManager)
  : State :=
  {| discovery := discovery st; messageQueue := m;
     serviceRegistry := serviceRegistry st;
     requestCounts := requestCounts st;
     currentIndex := currentIndex st |}.

(** The [config] object of [proxyRequest];
    [headers: { ...req.headers, host: undefined }] sends every header but
    [host]. *)
Definition request_config (service : Target) (req : Request)
  : AxiosConfig :=
  {| config_method := method req;
     config_url := url service +:+ path req;
     config_data := body req;
     config_headers :=
       filter (fun h : string * string => h.1 <> "host") (headers req);
     timeout := 10000;
     validateStatus := None |}.

(** [res.status(response.status).json(response.data)] *)
Definition answer (response : AxiosResponse) : Response :=
  {| statusCode := status response; json := Data (data response) |}.

(** The [try] block of [proxyRequest]: the state it leaves, how it
    completes, and the url it selected, if it got that far.  The timers
    that [publishEvent] may schedule run after the handler and touch job
    objects only. *)
Definition try_block (st : State) (w : World) (req : Request)
    (serviceName : string) : State * Outcome Response * option string :=
  let '(st1, selected) := getNextService st (consul_health w) serviceName in
  match selected with
  | Rejected error => (st1, Rejected error, None)
  | Resolved selected =>
      let service :=
        {| url := url selected; target_healthy := target_healthy selected;
           requests := requests selected + 1 |} in
      let config := request_config service req in
      let '(m, published, _) :=
        MessageQueue.publishEvent (messageQueue st1) (queue_world w)
          "request.proxied"
          [("method", method req); ("path", path req);
           ("target", url service); ("requestId", requestId req);
           ("timestamp", pretty (MessageQueue.now (queue_world w)))] in
      let st2 := with_queue st1 m in
      match published with
      | Rejected error => (st2, Rejected error, Some (url service))
      | Resolved _ =>
          match axios config (wire w (config_url config)) with
          | Rejected error => (st2, Rejected error, Some (url service))
          | Resolved response =>
              (st2, Resolved (answer response), Some (url service))
          end
      end
  end.

Definition maxAttempts : Z := 3.

Definition unavailable (serviceName : string) (error : JsError)
    (req : Request) : Response :=
  {| statusCode := 500;
     json :=
       ErrorReport
         ("Service " +:+ serviceName +:+ " unavailable after "
            +:+ pretty maxAttempts +:+ " attempts")
         (Js.message error)
         (requestId req) |}.

(** [while (attempts < maxAttempts) { try ... catch ... }].  [None] stands
    for leaving the loop without having answered. *)
Fixpoint retry_loop (fuel : nat) (st : State) (worlds : Z -> World)
    (req : Request) (serviceName : string) (attempts : Z)
    (log : list Attempt) : State * option Response * list Attempt :=
  match fuel with
  | O => (st, None, log)
  | S fuel' =>
      if decide (attempts < maxAttempts) then
        let '(st1, outcome, chosen) :=
          try_block st (worlds attempts) req serviceName in
        match outcome with
        | Resolved response =>
            (st1, Some response,
             log ++ [{| attempt := attempts + 1; target := chosen;
                        failure := None |}])
        | Rejected error =>
            let attempts' := attempts + 1 in
            let log' :=
              log ++ [{| attempt := attempts'; target := chosen;
                         failure := Some error |}] in
            if decide (attempts' = maxAttempts) then
              (st1, Some (unavailable serviceName error req), log')
            else retry_loop fuel' st1 worlds req serviceName attempts' log'
        end
      else (st, None, log)
  end.

(** [proxyRequest(req, res, serviceName)]; [worlds k] is the outside
    during the turn that starts with [attempts = k]. *)
Definition proxyRequest (st : State) (worlds : Z -> World) (req : Request)
    (serviceName : string) : State * option Response * list Attempt :=
  retry_loop (Z.to_nat maxAttempts) st worlds req serviceName 0 [].

(** The three [app.all] routes. *)
Inductive Route := users | products | orders.

Definition route_service (r : Route) : string :=
  match r with
  | users => "user"
  | products => "product"
  | orders => "order"
  end.

Definition route (st : State) (worlds : Z -> World) (req : Request)
    (r : Route) : State * option Response * list Attempt :=
  proxyRequest st worlds req (route_service r).

(** ** [GET /api/gateway/stats] *)

(** The [services] field of the snapshot: the object the handler fills
    from discovery, or the static [serviceRegistry]. *)
Inductive StatsServices :=
| Discovered (perService : list (string * list Target))
| StaticRegistry (properties : gmap string (list Target)).

Record Stats := mkStats {
  stats_services : StatsServices;
  stats_currentIndex : gmap string JsNum;
  stats_timestamp : Z;
  totalRequests : Z;
  stats_serviceDiscovery : string;
  stats_messageQueue : string
}.

(** The [map] callback inside [.then]. *)
Definition stats_entry (st : State) (s : ServiceInstance) : Target :=
  {| url := "http://" +:+ serviceKey s;
     target_healthy := healthy s;
     requests := count_of st (serviceKey s) |}.

(** The handler runs synchronously up to [res.json(stats)].  The three
    [discoverServices] calls are started first, but the function passed to
    [.then] is a promise reaction: it runs only after the handler has
    returned, so [stats] is built from [discoveredServices] as it is
    declared, [{}].  The result is the snapshot that is sent, and the
    object the reaction builds afterwards. *)
Definition stats_handler (st : State)
    (consul : string -> Outcome (list ConsulService)) (now : Z)
  : Stats * list (string * list Target) :=
  let discoveredServices : list (string * list Target) := [] in
  let userServices := discoverServices (discovery st) (consul "user") "user" in
  let productServices :=
    discoverServices (discovery st) (consul "product") "product" in
  let orderServices :=
    discoverServices (discovery st) (consul "order") "order" in
  let reaction :=
    map_set
      (map_set
         (map_set discoveredServices "user" (stats_entry st <$> userServices))
         "product" (stats_entry st <$> productServices))
      "order" (stats_entry st <$> orderServices) in
  let stats :=
    {| stats_services :=
         if decide (0 < length discoveredServices)%nat
         then Discovered discoveredServices
         else StaticRegistry (serviceRegistry st);
       stats_currentIndex := currentIndex st;
       stats_timestamp := now;
       totalRequests :=
         map_fold (fun _ count sum => sum + count) 0 (requestCounts st);
       stats_serviceDiscovery :=
         if useConsul (discovery st) then "consul" else "fallback";
       stats_messageQueue :=
         if MessageQueue.useRedis (messageQueue st) then "redis"
         else "fallback" |} in
  (stats, reaction).

(** ** The process as a whole *)

(** State once the module body of [server.js] has run: both singletons
    constructed, the two queues created and the two subscriptions made
    (Redis has not answered yet, so these use the in-memory queue). *)
Definition initial : State :=
  let m0 := MessageQueue.constructed in
  let m1 := (MessageQueue.createQueue m0 "events").1 in
  let m2 := (MessageQueue.createQueue m1 "audit").1 in
  let m3 := MessageQueue.subscribeToEvents m2 "service.registered" in
  let m4 := MessageQueue.subscribeToEvents m3 "service.deregistered" in
  {| discovery := Discovery.constructed;
     messageQueue := m4;
     serviceRegistry := ∅;
     requestCounts := ∅;
     currentIndex :=
       <["order" := Num 0]> (<["product" := Num 0]> {["user" := Num 0]}) |}.

Definition with_discovery (st : State) (sd : ServiceDiscovery) : State :=
  {| discovery := sd; messageQueue := messageQueue st;
     serviceRegistry := serviceRegistry st;
     requestCounts := requestCounts st;
     currentIndex := currentIndex st |}.

(** Everything that can happen to the process between two requests. *)
Inductive Op :=
| ConsulAnswered (self : Outcome unit)
| RedisConnected
| RedisFailed
| RegisterService (consul_register : Outcome unit) (now : Z)
    (name id : string) (port : Z)
| DeregisterService (consul_deregister : Outcome unit) (id : string)
| HealthCheck (probe : string -> Z -> Outcome bool) (now : Z)
| ProxyRequest (r : Route) (req : Request) (worlds : Z -> World).

Definition step (st : State) (op : Op) : State :=
  match op with
  | ConsulAnswered self => with_discovery st (init (discovery st) self)
  | RedisConnected =>
      with_queue st (MessageQueue.on_connect (messageQueue st))
  | RedisFailed => with_queue st (MessageQueue.on_error (messageQueue st))
  | RegisterService consul_register now name id port =>
      with_discovery st
        (registerService (discovery st) consul_register now name id port)
  | DeregisterService consul_deregister id =>
      with_discovery st
        (deregisterService (discovery st) consul_deregister id)
  | HealthCheck probe now =>
      with_discovery st (healthCheck (discovery st) probe now)
  | ProxyRequest r req worlds => (route st worlds req r).1.1
  end.

Definition run (st : State) (ops : list Op) : State := foldl step st ops.

Definition is_request (op : Op) : bool :=
  match op with
  | ProxyRequest _ _ _ => true
  | _ => false
  end.

(** ** Observations used to state properties *)

(** The part of the state that routing reads and writes: everything but
    the queue manager. *)
Definition routing_state (st : State)
  : ServiceDiscovery * gmap string (list Target) * gmap string Z
    * gmap string JsNum :=
  (discovery st, serviceRegistry st, requestCounts st, currentIndex st).

(** How many turns of a request's log selected the instance counted
    under [key]. *)
Definition hits (key : string) (log : list Attempt) : Z :=
  Z.of_nat
    (length
       (filter (fun a => target a = Some ("http://" +:+ key)) log)).

(** Nothing is ever stored in [serviceRegistry], and the three routed
    cursors hold non-negative integers. *)
Definition well_formed (st : State) : Prop :=
  serviceRegistry st = ∅
  /\ forall r, exists c,
       currentIndex st !! route_service r = Some (Num c) /\ 0 <= c.

(** Serve requests one after the other; the answers and logs, oldest
    first. *)
Fixpoint serve (st : State)
    (requests : list (Route * Request * (Z -> World)))
  : State * list (option Response * list Attempt) :=
  match requests with
  | [] => (st, [])
  | (r, req, worlds) :: rest =>
      let '(st1, response, log) := route st worlds req r in
      let '(st2, served) := serve st1 rest in
      (st2, (response, log) :: served)
  end.

End Gateway.

(* ===================================================================== *)
(** * Concrete inputs *)
(* ===================================================================== *)

Module Scenario.
Import Js Discovery Gateway.

(** A processor that throws, and one that resolves. *)
Definition boom : MessageQueue.Processor :=
  fun _ => Rejected (mkError PlainError "handler failed").

Definition fine : MessageQueue.Processor := fun _ => Resolved ().

Definition a_job : MessageQueue.Job :=
  {| MessageQueue.job_id := 1700000000000;
     MessageQueue.name := "user.created";
     MessageQueue.job_data :=
       {| MessageQueue.event := "user.created"; MessageQueue.data := [];
          MessageQueue.timestamp := 1700000000000;
          MessageQueue.source := "unknown" |};
     MessageQueue.createdAt := 1700000000000;
     MessageQueue.status := MessageQueue.waiting;
     MessageQueue.error := None |}.

Definition refused : JsError :=
  mkError ExternalError "connect ECONNREFUSED".

(** Neither Consul nor Redis is there. *)
Definition queue_up : MessageQueue.QueueWorld :=
  {| MessageQueue.bull_add := Resolved ();
     MessageQueue.now := 1700000000000;
     MessageQueue.fresh_id := 1700000000000;
     MessageQueue.SERVICE_NAME := None |}.

Definition queue_down : MessageQueue.QueueWorld :=
  {| MessageQueue.bull_add := Rejected refused;
     MessageQueue.now := 1700000000000;
     MessageQueue.fresh_id := 1700000000000;
     MessageQueue.SERVICE_NAME := None |}.

(** Every instance answers [200]. *)
Definition all_up : Z -> World :=
  fun _ =>
    {| consul_health := Rejected refused; queue_world := queue_up;
       wire := fun _ => Reply 200 "[]" |}.

Definition all_up_queue_down : Z -> World :=
  fun _ =>
    {| consul_health := Rejected refused; queue_world := queue_down;
       wire := fun _ => Reply 200 "[]" |}.

(** Every instance answers [404] with a body of its own. *)
Definition all_not_found : Z -> World :=
  fun _ =>
    {| consul_health := Rejected refused; queue_world := queue_up;
       wire := fun _ => Reply 404 "User not found" |}.

(** No instance accepts the connection. *)
Definition all_down : Z -> World :=
  fun _ =>
    {| consul_health := Rejected refused; queue_world := queue_up;
       wire := fun _ => NoReply "connect ECONNREFUSED" |}.

Definition get_users : Request :=
  {| method := "GET"; path := "/api/users"; body := EmptyString; headers := [];
     requestId := "req-1" |}.

Definition register_ABC : list Op :=
  [RegisterService (Resolved ()) 1700000000000 "user" "A" 3002;
   RegisterService (Resolved ()) 1700000000000 "user" "B" 3003;
   RegisterService (Resolved ()) 1700000000000 "user" "C" 3004].

(** The gateway in local mode with instances A, B, C of service
    [user]. *)
Definition three_instances : State := run initial register_ABC.

Definition one_instance : State :=
  run initial
    [RegisterService (Resolved ()) 1700000000000 "user" "A" 3002].

End Scenario.

(* ===================================================================== *)
(** * Histories of the two facades, and what is observed of a request *)
(* ===================================================================== *)

Module Registry.
Import Js Discovery.

(** Everything that happens to one [ServiceDiscovery] object: [init]
    hears from Consul, a caller registers or deregisters, or the timer of
    [startHealthChecks] fires [healthCheck]. *)
Inductive Op :=
| Init (self : Outcome unit)
| Register (consul_register : Outcome unit) (now : Z) (name id : string)
    (port : Z)
| Deregister (consul_deregister : Outcome unit) (id : string)
| HealthCheck (probe : string -> Z -> Outcome bool) (now : Z).

Definition step (sd : ServiceDiscovery) (op : Op) : ServiceDiscovery :=
  match op with
  | Init self => init sd self
  | Register consul_register now name id port =>
      registerService sd consul_register now name id port
  | Deregister consul_deregister id =>
      deregisterService sd consul_deregister id
  | HealthCheck probe now => healthCheck sd probe now
  end.

Definition run (ops : list Op) : ServiceDiscovery :=
  foldl step Discovery.constructed ops.

(** The ids of an instance array, in order. *)
Definition ids (instances : list ServiceInstance) : list string :=
  inst_id <$> instances.

(** [this.services.get(serviceName) || []] *)
Definition instances_of (sd : ServiceDiscovery) (serviceName : string)
  : list ServiceInstance :=
  default [] (map_get (services sd) serviceName).

(** Whether the probe of [healthCheck] leaves the instance healthy. *)
Definition passes (probe : string -> Z -> Outcome bool)
    (instance : ServiceInstance) : bool :=
  match probe (address instance) (port instance) with
  | Resolved ok => ok
  | Rejected _ => false
  end.

End Registry.

Module QueueRun.
Import Js MessageQueue.

(** Everything that happens to one [MessageQueueManager]: the Redis
    client's events, and the calls of the public methods.  [Process] is
    [getQueue(queueName).process(first)]. *)
Inductive Op :=
| Connect
| Error
| CreateQueue (queueName : string)
| Subscribe (eventName : string)
| Process (queueName : string) (first : ProcessArg)
| Publish (w : QueueWorld) (eventName : string) (d : list (string * string)).

Definition step (m : MessageQueueManager) (op : Op) : MessageQueueManager :=
  match op with
  | Connect => on_connect m
  | Error => on_error m
  | CreateQueue queueName => (createQueue m queueName).1
  | Subscribe eventName => subscribeToEvents m eventName
  | Process queueName first =>
      match getQueue m queueName with
      | Some queue => process m queue first
      | None => m
      end
  | Publish w eventName d => (publishEvent m w eventName d).1.1
  end.

Definition run (ops : list Op) : MessageQueueManager :=
  foldl step MessageQueue.constructed ops.

(** An in-memory queue object that holds no job and no processor. *)
Definition idle (queue : Queue) : Prop :=
  match queue with
  | BullQueue _ => True
  | FallbackQueue _ jobs processors => jobs = [] /\ processors = []
  end.

(** Nothing is stored in the in-memory job list, and every in-memory queue
    object is idle. *)
Definition quiet (m : MessageQueueManager) : Prop :=
  fallbackQueue_jobs m = None
  /\ Forall (fun e : string * Queue => idle e.2) (queues m).

(** Whether an operation is [createQueue(queueName)]. *)
Definition creates (queueName : string) (op : Op) : bool :=
  match op with
  | CreateQueue created => bool_decide (created = queueName)
  | _ => false
  end.

End QueueRun.

Module Observed.
Import Js Discovery Gateway.

(** [registerGateway], called two seconds after [listen]:
    [registerService('api-gateway', `gateway-${PORT}`, PORT, ...)]. *)
Definition PORT : Z := 3001.

Definition registerGateway (st : State) (consul_register : Outcome unit)
    (now : Z) : State :=
  with_discovery st
    (registerService (discovery st) consul_register now "api-gateway"
       ("gateway-" +:+ pretty PORT) PORT).

(** The url the round robin builds for an instance. *)
Definition instance_url (instance : ServiceInstance) : string :=
  "http://" +:+ serviceKey instance.

(** The url at distance [k] from cursor [c] in the discovered array. *)
Definition url_at (found : list ServiceInstance) (c k : Z) : option string :=
  instance_url
    <$> found !! Z.to_nat ((c + k) mod Z.of_nat (length found)).

(** How many turns of a request's log selected an instance. *)
Definition selections (log : list Attempt) : Z :=
  Z.of_nat (length (filter (fun a => is_Some (target a)) log)).

(** [Array.from(requestCounts.values()).reduce((sum, count) => sum + count,
    0)], the [totalRequests] of the stats snapshot. *)
Definition total (counts : gmap string Z) : Z :=
  map_fold (fun _ count sum => sum + count) 0 counts.

(** The targets of the first attempts of a series of requests. *)
Definition first_targets
    (served : list (option Response * list Attempt)) : list (option string) :=
  (fun answered => head (answered.2) ≫= target) <$> served.

End Observed.

Module Sample.
Import Js Discovery.

(** A registry in local mode with A, B, C under [user]. *)
Definition registry_ABC : list Registry.Op :=
  [Registry.Register (Resolved ()) 1700000000000 "user" "A" 3002;
   Registry.Register (Resolved ()) 1700000000000 "user" "B" 3003;
   Registry.Register (Resolved ()) 1700000000000 "user" "C" 3004].

(** The same id under two service names. *)
Definition registry_shared_id : list Registry.Op :=
  [Registry.Register (Resolved ()) 1700000000000 "user" "worker-1" 3002;
   Registry.Register (Resolved ()) 1700000000000 "order" "worker-1" 3006].

(** Only port 3003 answers the health probe. *)
Definition only_3003 : string -> Z -> Outcome bool :=
  fun _ port =>
    if decide (port = 3003) then Resolved true
    else Rejected (mkError ExternalError "fetch failed").

(** Every instance answers [404] during the first turn of a request, and
    [200] from the second turn on. *)
Definition up_after_first : Z -> Gateway.World :=
  fun k =>
    if decide (k = 0) then Scenario.all_not_found 0 else Scenario.all_up 0.

End Sample.

Module Turns.
Import Js Discovery Gateway.

(** The state in which turn [k] (counted from 0) of the loop of
    [proxyRequest] starts, if the loop gets that far: the state that the
    [try] blocks of the turns before it have left. *)
Fixpoint state_before (k : nat) (st : State) (worlds : Z -> World)
    (req : Request) (serviceName : string) : State :=
  match k with
  | O => st
  | S j =>
      (try_block (state_before j st worlds req serviceName)
         (worlds (Z.of_nat j)) req serviceName).1.1
  end.

(** The loop gets as far as turn [k]: the [try] block of every turn before
    it threw. *)
Definition reached (k : nat) (st : State) (worlds : Z -> World)
    (req : Request) (serviceName : string) : Prop :=
  forall j,
    (j < k)%nat ->
    exists e,
      (try_block (state_before j st worlds req serviceName)
         (worlds (Z.of_nat j)) req serviceName).1.2
      = Rejected e.

(** The error axios rejects with for a reply whose status it does not
    accept. *)
Definition status_error (s : Z) : JsError :=
  mkError AxiosError ("Request failed with status code " +:+ pretty s).

End Turns.

(* ===================================================================== *)
(** * Facts about the insertion-ordered maps *)
(* ===================================================================== *)

Section MapFacts.
Import Js.
Context {V : Type}.
Implicit Types m : list (string * V).

Lemma map_get_set_eq m k v : map_get (map_set m k v) k = Some v.
Proof.
  induction m as [|[k' v'] m IH]; simpl.
  - by rewrite decide_True.
  - destruct (decide (k' = k)) as [->|Hne]; simpl.
    + by rewrite decide_True.
    + by rewrite decide_False.
Qed.

Lemma map_get_set_ne m k k' v :
  k ≠ k' -> map_get (map_set m k v) k' = map_get m k'.
Proof.
  intros Hne. induction m as [|[k0 v0] m IH]; simpl.
  - by rewrite decide_False.
  - destruct (decide (k0 = k)) as [->|Hk]; simpl.
    + by rewrite !decide_False.
    + destruct (decide (k0 = k')); [done | apply IH].
Qed.

End MapFacts.

(* ===================================================================== *)
(** * The discovery facade *)
(* ===================================================================== *)

Section DiscoveryFacts.
Import Js Discovery.

Lemma findIndex_Some instances id i :
  findIndex instances id = Some i ->
  (i < length instances)%nat.
Proof.
  unfold findIndex. intros H.
  apply fmap_Some in H as [[j x] [Hfind ->]]. simpl.
  apply list_find_Some in Hfind as (Hj & _ & _).
  by eapply lookup_lt_Some.
Qed.

Lemma fallbackRegister_stores sd now name id port :
  exists instances,
    map_get (services (fallbackRegister sd now name id port)) name
      = Some instances
    /\ fresh_instance now id port ∈ instances.
Proof.
  unfold fallbackRegister. cbn [services].
  set (services1 := match map_get (services sd) name with
                    | Some _ => services sd
                    | None => map_set (services sd) name []
                    end).
  set (instances := default [] (map_get services1 name)).
  eexists. split; [apply map_get_set_eq |].
  destruct (findIndex instances id) as [i|] eqn:Hfind.
  - apply findIndex_Some in Hfind.
    apply list_elem_of_lookup. exists i.
    by apply list_lookup_insert_eq.
  - apply elem_of_app. right. by apply list_elem_of_singleton.
Qed.

(** C10.  In local mode ([useConsul] false), [registerService], for a new
    id as well as for one that is registered already, stores an instance
    with [healthy = true] and [lastCheck] set to the time of the call, and
    the next [discoverServices] for that service name returns it: no
    health probe has to run first. *)
Theorem registered_instance_is_discovered
    (sd : ServiceDiscovery) (consul_register : Outcome unit)
    (consul_health : Outcome (list ConsulService))
    (now : Z) (name id : string) (port : Z) :
  useConsul sd = false ->
  let registered := fresh_instance now id port in
  healthy registered = true
  /\ lastCheck registered = Some now
  /\ registered ∈
       discoverServices
         (registerService sd consul_register now name id port)
         consul_health name.
Proof.
  intros Hlocal registered. split; [done |]. split; [done |].
  unfold registerService. rewrite Hlocal.
  unfold discoverServices.
  replace (useConsul (fallbackRegister sd now name id port)) with false
    by (by rewrite <- Hlocal).
  unfold fallbackDiscover.
  destruct (fallbackRegister_stores sd now name id port)
    as (instances & -> & Hin).
  apply list_elem_of_filter. by split.
Qed.

Lemma registered_instance_is_discovered_witness :
  fresh_instance 1700000000000 "user-service-3002" 3002 ∈
    discoverServices
      (registerService Discovery.constructed (Resolved ()) 1700000000000
         "user" "user-service-3002" 3002)
      (Rejected (mkError ExternalError "connect ECONNREFUSED")) "user".
Proof.
  apply (registered_instance_is_discovered Discovery.constructed
           (Resolved ()) (Rejected (mkError ExternalError "connect ECONNREFUSED"))
           1700000000000 "user" "user-service-3002" 3002).
  reflexivity.
Defined.

End DiscoveryFacts.

(* ===================================================================== *)
(** * The queue facade *)
(* ===================================================================== *)

Section QueueFacts.
Import Js MessageQueue.

Lemma run_processors_snoc processors p job :
  run_processors (processors ++ [p]) job
  = run_processor p (run_processors processors job).
Proof. unfold run_processors. by rewrite foldl_app. Qed.

Lemma run_processor_spec p job written :
  let settled := p (with_status job processing (error job)) in
  status (run_processor p (job, written)).1 = verdict settled
  /\ (run_processor p (job, written)).2
     = written ++ [processing; verdict settled].
Proof. simpl. by destruct (p _). Qed.

(** The in-memory [add] cannot throw past [publishEvent]'s [catch], and
    neither can Bull's. *)
Lemma publishEvent_resolves m w eventName d :
  (publishEvent m w eventName d).1.2 = Resolved ().
Proof.
  unfold publishEvent.
  destruct (events_queue m) as [m1 eventQueue].
  destruct (add m1 w eventQueue eventName _) as [[m2 added] scheduled].
  simpl. by destruct added as [[]|].
Qed.

(** As the sources stand, the in-memory [add] always throws: nothing ever
    assigns [this.fallbackQueue.jobs].  [publishEvent] catches it. *)
Lemma in_memory_add_throws m w queueName jobs processors jobName d :
  fallbackQueue_jobs m = None ->
  exists e,
    add m w (FallbackQueue queueName jobs processors) jobName d
    = (m, Rejected e, []).
Proof. intros Hjobs. unfold add. rewrite Hjobs. eauto. Qed.

End QueueFacts.

(* ===================================================================== *)
(** * The round robin *)
(* ===================================================================== *)

Section RoundRobinFacts.
Import Js Discovery Gateway.

Lemma route_service_inj r r' : route_service r = route_service r' -> r = r'.
Proof. by destruct r, r'. Qed.

Lemma cursor_lookup st serviceName x :
  currentIndex st !! serviceName = Some x -> cursor st serviceName = x.
Proof. unfold cursor. by intros ->. Qed.

(** With a non-negative integer cursor, [selectFromDiscoveredServices]
    takes the instance at [cursor mod length], stores [(cursor + 1) mod
    length], and counts the selection under the instance's key. *)
Lemma select_at_cursor st serviceName found c :
  found <> [] ->
  cursor st serviceName = Num c ->
  0 <= c ->
  let len := Z.of_nat (length found) in
  exists inst,
    found !! Z.to_nat (c mod len) = Some inst
    /\ selectFromDiscoveredServices st serviceName found
       = ({| discovery := discovery st; messageQueue := messageQueue st;
             serviceRegistry := serviceRegistry st;
             requestCounts :=
               <[serviceKey inst := count_of st (serviceKey inst) + 1]>
                 (requestCounts st);
             currentIndex :=
               <[serviceName := Num ((c + 1) mod len)]> (currentIndex st) |},
          Resolved
            {| url := "http://" +:+ serviceKey inst;
               target_healthy := healthy inst;
               requests := count_of st (serviceKey inst) + 1 |}).
Proof.
  intros Hfound Hcursor Hc len.
  assert (0 < len) as Hlen.
  { subst len. destruct found; [done | simpl; lia]. }
  assert (0 <= c mod len < len) as Hmod by (apply Z.mod_pos_bound; lia).
  destruct (lookup_lt_is_Some_2 found (Z.to_nat (c mod len))) as [inst Hinst].
  { subst len. lia. }
  exists inst. split; [done |].
  unfold selectFromDiscoveredServices.
  rewrite decide_False by (by destruct found).
  fold len. rewrite Hcursor. simpl.
  rewrite decide_False by lia.
  rewrite !Z.rem_mod_nonneg by lia.
  simpl. rewrite decide_True by lia. rewrite Hinst.
  unfold count_of. simpl. rewrite lookup_insert_eq.
  by rewrite decide_False by lia.
Qed.

(** Whatever the cursor holds, a selection either throws without counting
    anything, or counts exactly one request, under the key of the url it
    returns. *)
Lemma select_counts_once st serviceName found st' out :
  selectFromDiscoveredServices st serviceName found = (st', out) ->
  discovery st' = discovery st
  /\ serviceRegistry st' = serviceRegistry st
  /\ messageQueue st' = messageQueue st
  /\ match out with
     | Rejected _ => requestCounts st' = requestCounts st
     | Resolved t =>
         exists inst,
           inst ∈ found
           /\ url t = "http://" +:+ serviceKey inst
           /\ requestCounts st'
              = <[serviceKey inst := count_of st (serviceKey inst) + 1]>
                  (requestCounts st)
     end.
Proof.
  unfold selectFromDiscoveredServices.
  destruct (decide (length found = 0%nat)).
  { intros [= <- <-]. done. }
  destruct (index found _) as [inst|] eqn:Hindex.
  - intros [= <- <-]. simpl. repeat split. exists inst. repeat split.
    unfold index in Hindex. destruct (rem _ _); [|done].
    destruct (decide _); [|done]. by eapply list_elem_of_lookup_2.
  - intros [= <- <-]. done.
Qed.

Lemma getNextService_discovered st consul serviceName :
  discoverServices (discovery st) consul serviceName <> [] ->
  getNextService st consul serviceName
  = selectFromDiscoveredServices st serviceName
      (discoverServices (discovery st) consul serviceName).
Proof.
  intros Hfound. unfold getNextService.
  destruct (discoverServices _ _ _); [done |].
  rewrite decide_True; [done | simpl; lia].
Qed.

Lemma getNextService_nothing_known st consul serviceName :
  discoverServices (discovery st) consul serviceName = [] ->
  serviceRegistry st !! serviceName = None ->
  exists e, getNextService st consul serviceName = (st, Rejected e).
Proof.
  intros Hfound Hstatic. unfold getNextService. rewrite Hfound.
  rewrite decide_False by (simpl; lia).
  unfold selectFromStaticRegistry. rewrite Hstatic. eauto.
Qed.

Lemma getNextService_counts_once st consul serviceName st' out :
  serviceRegistry st = ∅ ->
  getNextService st consul serviceName = (st', out) ->
  discovery st' = discovery st
  /\ serviceRegistry st' = serviceRegistry st
  /\ messageQueue st' = messageQueue st
  /\ match out with
     | Rejected _ => requestCounts st' = requestCounts st
     | Resolved t =>
         exists inst,
           inst ∈ discoverServices (discovery st) consul serviceName
           /\ url t = "http://" +:+ serviceKey inst
           /\ requestCounts st'
              = <[serviceKey inst := count_of st (serviceKey inst) + 1]>
                  (requestCounts st)
     end.
Proof.
  intros Hstatic. unfold getNextService.
  destruct (decide _).
  - apply select_counts_once.
  - unfold selectFromStaticRegistry. rewrite Hstatic, lookup_empty.
    by intros [= <- <-].
Qed.

(** [axios] with the config that [proxyRequest] builds. *)
Lemma axios_request_config service req w :
  axios (request_config service req) w
  = match w with
    | Reply s d =>
        if default_validateStatus s
        then Resolved {| status := s; data := Decode d |}
        else
          Rejected
            (mkError AxiosError
               ("Request failed with status code " +:+ pretty s))
    | NoReply reason => Rejected (mkError AxiosError reason)
    end.
Proof. by destruct w. Qed.

Lemma try_block_not_selected st w req serviceName st1 e :
  getNextService st (consul_health w) serviceName = (st1, Rejected e) ->
  try_block st w req serviceName = (st1, Rejected e, None).
Proof. unfold try_block. by intros ->. Qed.

(** Once an instance is selected, the turn is decided on the wire alone:
    the audit event cannot make it fail. *)
Lemma try_block_selected st w req serviceName st1 t :
  getNextService st (consul_health w) serviceName = (st1, Resolved t) ->
  exists m,
    try_block st w req serviceName
    = (with_queue st1 m,
       match wire w (url t +:+ path req) with
       | Reply s d =>
           if default_validateStatus s
           then Resolved {| statusCode := s; json := Data (Decode d) |}
           else
             Rejected
               (mkError AxiosError
                  ("Request failed with status code " +:+ pretty s))
       | NoReply reason => Rejected (mkError AxiosError reason)
       end,
       Some (url t)).
Proof.
  unfold try_block. intros ->.
  match goal with
  | |- context [MessageQueue.publishEvent ?m ?q ?n ?d] =>
      pose proof (publishEvent_resolves m q n d) as Hpublished;
      destruct (MessageQueue.publishEvent m q n d)
        as [[m' published] scheduled]
  end.
  simpl in Hpublished. subst published. exists m'.
  rewrite axios_request_config. simpl.
  destruct (wire w _) as [s d|reason]; [|done].
  by destruct (default_validateStatus s).
Qed.

(** The retry loop, unrolled: at most three turns, and always an answer. *)
Lemma proxyRequest_cases st worlds req serviceName :
  let t1 := try_block st (worlds 0) req serviceName in
  let t2 := try_block t1.1.1 (worlds 1) req serviceName in
  let t3 := try_block t2.1.1 (worlds 2) req serviceName in
  proxyRequest st worlds req serviceName
  = match t1.1.2 with
    | Resolved response =>
        (t1.1.1, Some response, [mkAttempt 1 t1.2 None])
    | Rejected e1 =>
        match t2.1.2 with
        | Resolved response =>
            (t2.1.1, Some response,
             [mkAttempt 1 t1.2 (Some e1); mkAttempt 2 t2.2 None])
        | Rejected e2 =>
            match t3.1.2 with
            | Resolved response =>
                (t3.1.1, Some response,
                 [mkAttempt 1 t1.2 (Some e1); mkAttempt 2 t2.2 (Some e2);
                  mkAttempt 3 t3.2 None])
            | Rejected e3 =>
                (t3.1.1, Some (unavailable serviceName e3 req),
                 [mkAttempt 1 t1.2 (Some e1); mkAttempt 2 t2.2 (Some e2);
                  mkAttempt 3 t3.2 (Some e3)])
            end
        end
    end.
Proof.
  unfold proxyRequest. simpl.
  change (0 + 1 + 1 + 1) with 3. change (0 + 1 + 1) with 2.
  change (0 + 1) with 1.
  destruct (try_block st (worlds 0) req serviceName) as [[st1 o1] c1].
  destruct o1 as [response|e1]; simpl; [done |].
  destruct (try_block st1 (worlds 1) req serviceName) as [[st2 o2] c2].
  destruct o2 as [response|e2]; simpl; [done |].
  destruct (try_block st2 (worlds 2) req serviceName) as [[st3 o3] c3].
  by destruct o3 as [response|e3].
Qed.

(** ** What every reachable state satisfies *)

Lemma initial_well_formed : well_formed initial.
Proof.
  split; [done |].
  intros r. exists 0. by destruct r.
Qed.

Lemma select_well_formed st serviceName found :
  well_formed st ->
  well_formed (selectFromDiscoveredServices st serviceName found).1.
Proof.
  intros [Hstatic Hcursors]. unfold selectFromDiscoveredServices.
  destruct (decide (length found = 0%nat)) as [|Hlen]; [done |].
  assert (forall r, exists c,
            (<[serviceName :=
                 rem (add1 (cursor st serviceName))
                   (Z.of_nat (length found))]> (currentIndex st))
              !! route_service r = Some (Num c) /\ 0 <= c) as Hnew.
  { intros r. destruct (Hcursors r) as (c & Hc & Hpos).
    destruct (decide (serviceName = route_service r)) as [->|Hother].
    - rewrite lookup_insert_eq, (cursor_lookup _ _ _ Hc). simpl.
      rewrite decide_False by lia.
      eexists. split; [done |]. apply Z.rem_nonneg; lia.
    - rewrite lookup_insert_ne by done. eauto. }
  by destruct (index found _).
Qed.

Lemma getNextService_well_formed st consul serviceName :
  well_formed st -> well_formed (getNextService st consul serviceName).1.
Proof.
  intros Hwf. unfold getNextService. destruct (decide _).
  - by apply select_well_formed.
  - unfold selectFromStaticRegistry.
    destruct Hwf as [Hstatic Hcursors]. rewrite Hstatic, lookup_empty.
    by split.
Qed.

Lemma try_block_well_formed st w req serviceName :
  well_formed st -> well_formed (try_block st w req serviceName).1.1.
Proof.
  intros Hwf.
  pose proof (getNextService_well_formed st (consul_health w) serviceName Hwf)
    as Hnext.
  destruct (getNextService st (consul_health w) serviceName)
    as [st1 [t|e]] eqn:Hsel.
  - destruct (try_block_selected st w req serviceName st1 t Hsel)
      as [m ->]. done.
  - by rewrite (try_block_not_selected st w req serviceName st1 e Hsel).
Qed.

(** A property of states that every turn of the loop keeps is kept by the
    loop. *)
Lemma retry_loop_preserves (P : State -> Prop) worlds req serviceName :
  (forall st w, P st -> P (try_block st w req serviceName).1.1) ->
  forall fuel st attempts log,
    P st ->
    P (retry_loop fuel st worlds req serviceName attempts log).1.1.
Proof.
  intros Hturn fuel.
  induction fuel as [|fuel IH]; intros st attempts log Hst; [done |].
  simpl. destruct (decide (attempts < maxAttempts)); [|done].
  specialize (Hturn st (worlds attempts) Hst).
  destruct (try_block st (worlds attempts) req serviceName)
    as [[st1 [response|e]] chosen]; [done |].
  destruct (decide (attempts + 1 = maxAttempts)); [done |].
  by apply IH.
Qed.

Lemma step_well_formed st op : well_formed st -> well_formed (step st op).
Proof.
  intros Hwf. destruct op; try done.
  simpl. unfold route, proxyRequest.
  apply retry_loop_preserves; [|done].
  intros. by apply try_block_well_formed.
Qed.

Lemma run_well_formed ops : well_formed (run initial ops).
Proof.
  unfold run. induction ops as [|op ops IH] using rev_ind.
  - apply initial_well_formed.
  - rewrite foldl_app. by apply step_well_formed.
Qed.

Lemma reachable_cursor ops r :
  exists c, cursor (run initial ops) (route_service r) = Num c /\ 0 <= c.
Proof.
  destruct (run_well_formed ops) as [_ Hcursors].
  destruct (Hcursors r) as (c & Hc & Hpos).
  exists c. split; [by apply cursor_lookup | done].
Qed.

(** Registration, deregistration, health checks and mode changes touch
    neither the cursors nor the request counts. *)
Lemma step_keeps_tables st op :
  is_request op = false ->
  currentIndex (step st op) = currentIndex st
  /\ requestCounts (step st op) = requestCounts st.
Proof. by destruct op. Qed.

(** ** Counting selections *)

Lemma hits_snoc key log a :
  hits key (log ++ [a])
  = hits key log
    + (if decide (target a = Some ("http://" +:+ key)) then 1 else 0).
Proof.
  unfold hits. rewrite filter_app, length_app, filter_cons, filter_nil.
  destruct (decide _); simpl; lia.
Qed.

Lemma try_block_counts st w req serviceName key :
  serviceRegistry st = ∅ ->
  let t := try_block st w req serviceName in
  serviceRegistry t.1.1 = ∅
  /\ count_of t.1.1 key
     = count_of st key
       + (if decide (t.2 = Some ("http://" +:+ key)) then 1 else 0).
Proof.
  intros Hstatic.
  destruct (getNextService st (consul_health w) serviceName)
    as [st1 [t|e]] eqn:Hsel.
  - destruct (getNextService_counts_once _ _ _ _ _ Hstatic Hsel)
      as (_ & Hreg & _ & inst & _ & Hurl & Hcounts).
    destruct (try_block_selected st w req serviceName st1 t Hsel)
      as [m ->]. simpl.
    split; [congruence |].
    unfold count_of. simpl. rewrite Hcounts, Hurl.
    destruct (decide (Some ("http://" +:+ serviceKey inst)
                      = Some ("http://" +:+ key))) as [Heq|Hne].
    + injection Heq as Heq. apply (inj _) in Heq as <-.
      by rewrite lookup_insert_eq.
    + rewrite lookup_insert_ne; [lia | congruence].
  - destruct (getNextService_counts_once _ _ _ _ _ Hstatic Hsel)
      as (_ & Hreg & _ & Hcounts).
    rewrite (try_block_not_selected st w req serviceName st1 e Hsel).
    simpl. split; [congruence |].
    unfold count_of. rewrite Hcounts. lia.
Qed.

Lemma retry_loop_counts worlds req serviceName key :
  forall fuel st attempts log,
    serviceRegistry st = ∅ ->
    let result := retry_loop fuel st worlds req serviceName attempts log in
    count_of result.1.1 key + hits key log
    = count_of st key + hits key result.2.
Proof.
  induction fuel as [|fuel IH]; intros st attempts log Hstatic; [done |].
  simpl. destruct (decide (attempts < maxAttempts)); [|done].
  destruct (try_block_counts st (worlds attempts) req serviceName key Hstatic)
    as [Hstatic1 Hcount].
  destruct (try_block st (worlds attempts) req serviceName)
    as [[st1 [response|e]] chosen]; simpl in *.
  - rewrite hits_snoc. simpl. lia.
  - destruct (decide (attempts + 1 = maxAttempts)); simpl.
    + rewrite hits_snoc. simpl. lia.
    + specialize (IH st1 (attempts + 1)
                    (log ++ [mkAttempt (attempts + 1) chosen (Some e)])
                    Hstatic1).
      simpl in IH. rewrite hits_snoc in IH. simpl in IH. lia.
Qed.

(** ** What a turn can answer *)

Lemma default_validateStatus_spec s :
  default_validateStatus s = true <-> 200 <= s < 300.
Proof.
  unfold default_validateStatus.
  rewrite andb_true_iff, !bool_decide_eq_true. done.
Qed.

Lemma try_block_resolved_2xx st w req serviceName response :
  (try_block st w req serviceName).1.2 = Resolved response ->
  exists d,
    json response = Data d
    /\ default_validateStatus (statusCode response) = true.
Proof.
  destruct (getNextService st (consul_health w) serviceName)
    as [st1 [t|e]] eqn:Hsel.
  - destruct (try_block_selected st w req serviceName st1 t Hsel)
      as [m ->]. simpl.
    destruct (wire w _) as [s d|reason]; [|done].
    destruct (default_validateStatus s) eqn:Hs; [|done].
    intros [= <-]. eauto.
  - by rewrite (try_block_not_selected st w req serviceName st1 e Hsel).
Qed.

(** ** Routing does not read the queue *)

Lemma getNextService_routing st st' consul serviceName :
  routing_state st = routing_state st' ->
  (getNextService st consul serviceName).2
  = (getNextService st' consul serviceName).2
  /\ routing_state (getNextService st consul serviceName).1
     = routing_state (getNextService st' consul serviceName).1.
Proof.
  destruct st as [sd m sr rc ci], st' as [sd' m' sr' rc' ci'].
  unfold routing_state. simpl. intros [= <- <- <- <-].
  unfold getNextService, selectFromDiscoveredServices,
    selectFromStaticRegistry, cursor, count_of.
  simpl. repeat (case_decide || case_match); done.
Qed.

Lemma try_block_routing st st' w w' req serviceName :
  routing_state st = routing_state st' ->
  consul_health w = consul_health w' ->
  (forall u, wire w u = wire w' u) ->
  let a := try_block st w req serviceName in
  let b := try_block st' w' req serviceName in
  a.1.2 = b.1.2 /\ a.2 = b.2 /\ routing_state a.1.1 = routing_state b.1.1.
Proof.
  intros Hstate Hconsul Hwire.
  destruct (getNextService_routing st st' (consul_health w) serviceName Hstate)
    as [Hout Hnext].
  destruct (getNextService st (consul_health w) serviceName)
    as [st1 o] eqn:Hsel.
  destruct (getNextService st' (consul_health w) serviceName)
    as [st1' o'] eqn:Hsel'.
  rewrite Hconsul in Hsel'.
  simpl in Hout, Hnext. subst o'. destruct o as [t|e].
  - destruct (try_block_selected st w req serviceName st1 t Hsel)
      as [m ->].
    destruct (try_block_selected st' w' req serviceName st1' t Hsel')
      as [m' ->].
    simpl. by rewrite Hwire.
  - rewrite (try_block_not_selected st w req serviceName st1 e Hsel).
    by rewrite (try_block_not_selected st' w' req serviceName st1' e Hsel').
Qed.

Lemma retry_loop_routing worlds worlds' req serviceName :
  (forall k, consul_health (worlds k) = consul_health (worlds' k)) ->
  (forall k u, wire (worlds k) u = wire (worlds' k) u) ->
  forall fuel st st' attempts log,
    routing_state st = routing_state st' ->
    let a := retry_loop fuel st worlds req serviceName attempts log in
    let b := retry_loop fuel st' worlds' req serviceName attempts log in
    a.1.2 = b.1.2 /\ a.2 = b.2 /\ routing_state a.1.1 = routing_state b.1.1.
Proof.
  intros Hconsul Hwire.
  induction fuel as [|fuel IH]; intros st st' attempts log Hstate; [done |].
  simpl. destruct (decide (attempts < maxAttempts)); [|done].
  destruct (try_block_routing st st' (worlds attempts) (worlds' attempts)
              req serviceName Hstate (Hconsul attempts) (Hwire attempts))
    as (Hout & Hchosen & Hnext).
  destruct (try_block st (worlds attempts) req serviceName)
    as [[st1 o] chosen].
  destruct (try_block st' (worlds' attempts) req serviceName)
    as [[st1' o'] chosen'].
  simpl in Hout, Hchosen, Hnext. subst o' chosen'.
  destruct o as [response|e]; [done |].
  destruct (decide (attempts + 1 = maxAttempts)); [done |].
  by apply IH.
Qed.

End RoundRobinFacts.

(* ===================================================================== *)
(** * Routing: selection, cursor, counters *)
(* ===================================================================== *)

Section RoutingClaims.
Import Js Discovery Gateway.

(** C1.  In every state the gateway can reach, for each routed service for
    which discovery returns instances: the cursor is an integer [c >= 0],
    the selection of the first turn of [route] is the instance at position
    [c mod length], that is the target of the first attempt, and the
    selection leaves the cursor at [(c + 1) mod length].  Concretely, with
    instances A, B, C (ports 3002, 3003, 3004) registered for one service
    and every forward answered, four [route] calls target A, B, C, A in that
    order, each at its first attempt, and leave the request count of A at 2
    and those of B and C at 1. *)
Theorem route_selects_round_robin
    (ops : list Op) (r : Route) (req : Request) (worlds : Z -> World) :
  let st := run initial ops in
  let serviceName := route_service r in
  let consul := consul_health (worlds 0) in
  let found := discoverServices (discovery st) consul serviceName in
  let len := Z.of_nat (length found) in
  (found <> [] ->
   exists c inst,
     cursor st serviceName = Num c /\ 0 <= c
     /\ found !! Z.to_nat (c mod len) = Some inst
     /\ (getNextService st consul serviceName).2
        = Resolved
            {| url := "http://" +:+ serviceKey inst;
               target_healthy := healthy inst;
               requests := count_of st (serviceKey inst) + 1 |}
     /\ cursor (getNextService st consul serviceName).1 serviceName
        = Num ((c + 1) mod len)
     /\ exists failed,
          head (route st worlds req r).2
          = Some (mkAttempt 1 (Some ("http://" +:+ serviceKey inst)) failed))
  /\ (let '(st4, served) :=
        serve Scenario.three_instances
          (replicate 4 (users, req, Scenario.all_up)) in
      snd <$> served
      = [[mkAttempt 1 (Some "http://localhost:3002") None];
         [mkAttempt 1 (Some "http://localhost:3003") None];
         [mkAttempt 1 (Some "http://localhost:3004") None];
         [mkAttempt 1 (Some "http://localhost:3002") None]]
      /\ count_of st4 "localhost:3002" = 2
      /\ count_of st4 "localhost:3003" = 1
      /\ count_of st4 "localhost:3004" = 1).
Proof.
  intros st serviceName consul found len. split; [| by vm_compute].
  intros Hfound.
  destruct (reachable_cursor ops r) as (c & Hcursor & Hc).
  destruct (select_at_cursor st serviceName found c Hfound Hcursor Hc)
    as (inst & Hinst & Hselect).
  pose proof (getNextService_discovered st consul serviceName Hfound)
    as Hnext.
  fold found in Hnext. rewrite Hselect in Hnext.
  exists c, inst. rewrite Hnext. simpl.
  split; [done |]. split; [done |]. split; [done |]. split; [done |].
  split.
  { unfold cursor. simpl. by rewrite lookup_insert_eq. }
  unfold route. rewrite proxyRequest_cases.
  destruct (try_block_selected st (worlds 0) req serviceName _ _ Hnext)
    as [m Htry].
  fold serviceName. rewrite Htry. simpl.
  destruct (wire (worlds 0) _) as [s d|reason].
  - destruct (default_validateStatus s); simpl; [by eexists |].
    repeat (destruct (try_block _ _ _ _) as [[? [?|?]] ?]; simpl);
      by eexists.
  - repeat (destruct (try_block _ _ _ _) as [[? [?|?]] ?]; simpl);
      by eexists.
Qed.

Lemma route_selects_round_robin_witness :
  exists c inst,
    cursor Scenario.three_instances "user" = Num c /\ 0 <= c
    /\ discoverServices (discovery Scenario.three_instances)
         (Rejected Scenario.refused) "user" !! Z.to_nat (c mod 3)
       = Some inst
    /\ serviceKey inst = "localhost:3002".
Proof.
  destruct (route_selects_round_robin Scenario.register_ABC users
              Scenario.get_users Scenario.all_up) as [Hgeneral _].
  destruct Hgeneral as (c & inst & Hcursor & Hc & Hinst & _); [done |].
  exists c, inst. split; [done |]. split; [done |]. split; [done |].
  assert (c = 0) as -> by (vm_compute in Hcursor; congruence).
  vm_compute in Hinst. by injection Hinst as <-.
Defined.




(** The cursor table has entries for [user], [product] and [order] only,
    the three names that have a route.  [proxyRequest] called with any other
    name finds no cursor: with a healthy instance registered under
    ["widget"], every turn throws while selecting, and nothing is counted
    or forwarded. *)
Lemma name_without_route_selects_nothing :
  let st :=
    run initial
      [RegisterService (Resolved ()) 1700000000000 "widget" "A" 3002] in
  let '(st', response, log) :=
    proxyRequest st Scenario.all_up Scenario.get_users "widget" in
  length (discoverServices (discovery st) (Rejected Scenario.refused)
            "widget") = 1%nat
  /\ target <$> log = [None; None; None]
  /\ cursor st' "widget" = NaN
  /\ requestCounts st' = ∅
  /\ statusCode <$> response = Some 500.
Proof. by vm_compute. Qed.

End RoutingClaims.

(* ===================================================================== *)
(** * Routing: failures and retries *)
(* ===================================================================== *)

Section RetryClaims.
Import Js Discovery Gateway.

(** C2 as stated fails: with nothing registered, discovery is empty for
    [user], yet the request goes through all three turns of the loop. *)
Lemma nothing_registered_uses_three_attempts :
  let '(st', response, log) :=
    route initial Scenario.all_up Scenario.get_users users in
  discoverServices (discovery initial) (Rejected Scenario.refused) "user"
  = []
  /\ attempt <$> log = [1; 2; 3]
  /\ length log <> 1%nat.
Proof. by vm_compute. Qed.

(** C2, as the code has it.  In every state the gateway can reach and for
    every service name, if discovery returns no instance for that name at
    each turn, then the request does not crash and forwards nothing: each
    of the three turns fails before an instance is selected, the state is
    left as it was, and the caller gets status 500 with the error
    ["Service <name> unavailable after 3 attempts"], the message of the last
    failure and the request id. *)
Theorem no_instances_fails_after_three_attempts
    (ops : list Op) (serviceName : string) (req : Request)
    (worlds : Z -> World) :
  let st := run initial ops in
  (forall k,
     discoverServices (discovery st) (consul_health (worlds k)) serviceName
     = []) ->
  exists e1 e2 e3,
    proxyRequest st worlds req serviceName
    = (st,
       Some
         {| statusCode := 500;
            json :=
              ErrorReport
                ("Service " +:+ serviceName
                   +:+ " unavailable after 3 attempts")
                (message e3) (requestId req) |},
       [mkAttempt 1 None (Some e1); mkAttempt 2 None (Some e2);
        mkAttempt 3 None (Some e3)]).
Proof.
  intros st Hempty.
  destruct (run_well_formed ops) as [Hstatic _]. fold st in Hstatic.
  assert (forall k, exists e,
            try_block st (worlds k) req serviceName
            = (st, Rejected e, None)) as Hturn.
  { intros k.
    destruct (getNextService_nothing_known st (consul_health (worlds k))
                serviceName (Hempty k)) as [e He].
    { by rewrite Hstatic, lookup_empty. }
    exists e. by apply try_block_not_selected. }
  destruct (Hturn 0) as [e1 H1], (Hturn 1) as [e2 H2], (Hturn 2) as [e3 H3].
  exists e1, e2, e3.
  rewrite proxyRequest_cases.
  rewrite H1. simpl. rewrite H2. simpl. by rewrite H3.
Qed.

Lemma no_instances_fails_after_three_attempts_witness :
  exists e1 e2 e3,
    route initial Scenario.all_up Scenario.get_users users
    = (initial,
       Some
         {| statusCode := 500;
            json :=
              ErrorReport "Service user unavailable after 3 attempts"
                (message e3) "req-1" |},
       [mkAttempt 1 None (Some e1); mkAttempt 2 None (Some e2);
        mkAttempt 3 None (Some e3)]).
Proof.
  apply (no_instances_fails_after_three_attempts [] "user"
           Scenario.get_users Scenario.all_up).
  intros k. reflexivity.
Defined.

(** C3 as stated fails: instance A answers 404 with a body of its own; the
    gateway retries against B and C and answers 500 with its own error
    object. *)
Lemma not_found_reply_is_retried_and_replaced :
  let '(st', response, log) :=
    route Scenario.three_instances Scenario.all_not_found Scenario.get_users
      users in
  wire (Scenario.all_not_found 0) "http://localhost:3002/api/users"
  = Reply 404 "User not found"
  /\ target <$> log
     = [Some "http://localhost:3002"; Some "http://localhost:3003";
        Some "http://localhost:3004"]
  /\ response
     = Some
         {| statusCode := 500;
            json :=
              ErrorReport "Service user unavailable after 3 attempts"
                "Request failed with status code 404" "req-1" |}
  /\ response
     <> Some
          {| statusCode := 404; json := Data (Decode "User not found") |}.
Proof. vm_compute. repeat split; discriminate. Qed.

(** What one turn makes of a reply. *)
Lemma turn_reply st w req serviceName st1 t s d :
  getNextService st (consul_health w) serviceName = (st1, Resolved t) ->
  wire w (url t +:+ path req) = Reply s d ->
  exists m,
    try_block st w req serviceName
    = (with_queue st1 m,
       if default_validateStatus s
       then Resolved {| statusCode := s; json := Data (Decode d) |}
       else Rejected (Turns.status_error s),
       Some (url t)).
Proof.
  intros Hsel Hwire.
  destruct (try_block_selected st w req serviceName st1 t Hsel) as [m ->].
  exists m. by rewrite Hwire.
Qed.

Lemma resolved_turn_is_2xx st w req serviceName response :
  (try_block st w req serviceName).1.2 = Resolved response ->
  200 <= statusCode response < 300.
Proof.
  intros (d & _ & Hok)%try_block_resolved_2xx.
  by apply default_validateStatus_spec.
Qed.

(** C3, as the code has it.  For every forward attempt of a request, the
    first, the second or the third (turn [k] of the loop, reached because
    every turn before it failed): when the exchange with the instance
    selected in that turn ends in a reply with status [s] and body text
    [d], then
    - if [200 <= s < 300], the request is answered with status [s] and
      with [res.json] of the data decoded from [d]; that attempt is the
      last one, no retry follows;
    - if [400 <= s < 600], that attempt fails with ["Request failed with
      status code s"] like a connectivity failure; after the first and the
      second attempt the loop goes on to another attempt, after the third
      the caller gets the gateway's own 500 with that message; whatever
      the request is finally answered with is not that reply.
    A 3xx status is not met here: the reply is the one the exchange ends
    in once redirects have been followed.  The instance [t] is the one
    selected in turn [k], from the state the earlier turns of this request
    left; what the turn makes of the reply does not depend on that
    state ([turn_reply]). *)
Theorem only_2xx_replies_pass_through
    (st : State) (worlds : Z -> World) (req : Request) (serviceName : string)
    (k : nat) (st1 : State) (t : Target) (s : Z) (d : string) :
  (k < 3)%nat ->
  Turns.reached k st worlds req serviceName ->
  getNextService (Turns.state_before k st worlds req serviceName)
    (consul_health (worlds (Z.of_nat k))) serviceName
  = (st1, Resolved t) ->
  wire (worlds (Z.of_nat k)) (url t +:+ path req) = Reply s d ->
  let '(st', response, log) := proxyRequest st worlds req serviceName in
  (200 <= s < 300 ->
   response = Some {| statusCode := s; json := Data (Decode d) |}
   /\ length log = S k
   /\ last log = Some (mkAttempt (Z.of_nat k + 1) (Some (url t)) None))
  /\ (400 <= s < 600 ->
      log !! k
      = Some
          (mkAttempt (Z.of_nat k + 1) (Some (url t))
             (Some (Turns.status_error s)))
      /\ response <> Some {| statusCode := s; json := Data (Decode d) |}
      /\ ((k < 2)%nat -> (S k < length log)%nat)
      /\ (k = 2%nat ->
          response
          = Some (unavailable serviceName (Turns.status_error s) req))).
Proof.
  intros Hk Hreached Hsel Hwire.
  destruct (turn_reply _ _ req _ _ _ _ _ Hsel Hwire) as [m Hturn].
  assert (forall st0 w response,
            400 <= s < 600 ->
            (try_block st0 w req serviceName).1.2 = Resolved response ->
            Some response
            <> Some {| statusCode := s; json := Data (Decode d) |})
    as Hother.
  { intros st0 w response Hs Hresolved [= ->].
    apply resolved_turn_is_2xx in Hresolved. simpl in Hresolved. lia. }
  assert (400 <= s < 600 -> default_validateStatus s = false) as Hbad.
  { intros Hs. destruct (default_validateStatus s) eqn:Hv; [|done].
    apply default_validateStatus_spec in Hv. lia. }
  rewrite proxyRequest_cases.
  destruct k as [|[|[|k]]]; [| | |lia];
    cbn [Turns.state_before] in *;
    change (Z.of_nat 0) with 0 in *; change (Z.of_nat 1) with 1 in *;
    change (Z.of_nat 2) with 2 in *;
    change (0 + 1) with 1; change (1 + 1) with 2; change (2 + 1) with 3.
  - (* first attempt *)
    rewrite Hturn. simpl.
    destruct (default_validateStatus s) eqn:Hv; simpl.
    { split; [done |]. intros Hs. by specialize (Hbad Hs). }
    assert (~ 200 <= s < 300) as Hnot
      by (intros H%default_validateStatus_spec; congruence).
    destruct (try_block (with_queue st1 m) (worlds 1) req serviceName)
      as [[st2 [response2|e2]] c2] eqn:H2; simpl.
    { split; [done |]. intros Hs. repeat split; [|lia|lia].
      eapply (Hother _ (worlds 1)); [done | by rewrite H2]. }
    destruct (try_block st2 (worlds 2) req serviceName)
      as [[st3 [response3|e3]] c3] eqn:H3; simpl.
    { split; [done |]. intros Hs. repeat split; [|lia|lia].
      eapply (Hother _ (worlds 2)); [done | by rewrite H3]. }
    split; [done |]. intros Hs. repeat split; [done | lia | lia].
  - (* second attempt *)
    destruct (Hreached 0%nat ltac:(lia)) as [e1 H1]. simpl in H1.
    change (Z.of_nat 0) with 0 in H1.
    destruct (try_block st (worlds 0) req serviceName)
      as [[st0 o1] c1] eqn:Hfirst. simpl in *. subst o1.
    rewrite Hturn. simpl.
    destruct (default_validateStatus s) eqn:Hv; simpl.
    { split; [done |]. intros Hs. by specialize (Hbad Hs). }
    assert (~ 200 <= s < 300) as Hnot
      by (intros H%default_validateStatus_spec; congruence).
    destruct (try_block (with_queue st1 m) (worlds 2) req serviceName)
      as [[st3 [response3|e3]] c3] eqn:H3; simpl.
    { split; [done |]. intros Hs. repeat split; [|lia|lia].
      eapply (Hother _ (worlds 2)); [done | by rewrite H3]. }
    split; [done |]. intros Hs. repeat split; [done | lia | lia].
  - (* third attempt *)
    destruct (Hreached 0%nat ltac:(lia)) as [e1 H1]. simpl in H1.
    destruct (Hreached 1%nat ltac:(lia)) as [e2 H2]. simpl in H2.
    change (Z.of_nat 0) with 0 in H1, H2.
    change (Z.of_nat 1) with 1 in H2.
    destruct (try_block st (worlds 0) req serviceName)
      as [[st0 o1] c1] eqn:Hfirst. simpl in *. subst o1.
    destruct (try_block st0 (worlds 1) req serviceName)
      as [[st2 o2] c2] eqn:Hsecond. simpl in *. subst o2.
    rewrite Hturn. simpl.
    destruct (default_validateStatus s) eqn:Hv; simpl.
    { split; [done |]. intros Hs. by specialize (Hbad Hs). }
    assert (~ 200 <= s < 300) as Hnot
      by (intros H%default_validateStatus_spec; congruence).
    split; [done |]. intros Hs. repeat split; [done | lia].
Qed.

Lemma only_2xx_replies_pass_through_witness :
  let '(st', response, log) :=
    proxyRequest Scenario.three_instances Sample.up_after_first
      Scenario.get_users "user" in
  response = Some {| statusCode := 200; json := Data (Decode "[]") |}
  /\ length log = 2%nat
  /\ last log = Some (mkAttempt 2 (Some "http://localhost:3003") None).
Proof.
  pose proof (only_2xx_replies_pass_through Scenario.three_instances
                Sample.up_after_first Scenario.get_users "user" 1
                (getNextService
                   (Turns.state_before 1 Scenario.three_instances
                      Sample.up_after_first Scenario.get_users "user")
                   (Rejected Scenario.refused) "user").1
                (mkTarget "http://localhost:3003" true 1) 200 "[]") as H.
  destruct (proxyRequest _ _ _ _) as [[st' response] log].
  apply H.
  - lia.
  - intros j Hj. assert (j = 0%nat) as -> by lia. by eexists.
  - reflexivity.
  - reflexivity.
  - lia.
Defined.

(** C4 as stated fails on the status: when the only instance refuses every
    connection, all three attempts fail and the answer has status 500, not
    503. *)
Lemma exhausted_retries_answer_500 :
  let '(st', response, log) :=
    route Scenario.one_instance Scenario.all_down Scenario.get_users users in
  Forall (fun a => failure a <> None) log
  /\ statusCode <$> response = Some 500
  /\ statusCode <$> response <> Some 503.
Proof.
  vm_compute. split; [|by split]. repeat constructor; discriminate.
Qed.

(** C4, as the code has it.  Whenever every attempt of a [route] call
    fails, there were exactly three attempts and the caller receives status
    500 with the JSON object [{error, message, requestId}]: [error] is
    ["Service <name> unavailable after 3 attempts"], [message] is the
    message of the last failure, [requestId] is that of the request. *)
Theorem exhausted_retries_report
    (st : State) (worlds : Z -> World) (req : Request) (serviceName : string)
    (st' : State) (response : option Response) (log : list Attempt) :
  proxyRequest st worlds req serviceName = (st', response, log) ->
  Forall (fun a => failure a <> None) log ->
  exists chosen e,
    length log = 3%nat
    /\ last log = Some (mkAttempt 3 chosen (Some e))
    /\ response
       = Some
           {| statusCode := 500;
              json :=
                ErrorReport
                  ("Service " +:+ serviceName
                     +:+ " unavailable after 3 attempts")
                  (message e) (requestId req) |}.
Proof.
  rewrite proxyRequest_cases.
  destruct (try_block st (worlds 0) req serviceName)
    as [[st1 [response1|e1]] c1]; simpl.
  { intros [= <- <- <-] Hall.
    apply Forall_cons in Hall as [Hfailed _]. done. }
  destruct (try_block st1 (worlds 1) req serviceName)
    as [[st2 [response2|e2]] c2]; simpl.
  { intros [= <- <- <-] Hall.
    apply Forall_cons in Hall as [_ [Hfailed _]%Forall_cons]. done. }
  destruct (try_block st2 (worlds 2) req serviceName)
    as [[st3 [response3|e3]] c3]; simpl.
  { intros [= <- <- <-] Hall.
    apply Forall_cons in Hall
      as [_ [_ [Hfailed _]%Forall_cons]%Forall_cons]. done. }
  intros [= <- <- <-] _. by exists c3, e3.
Qed.

Lemma exhausted_retries_report_witness :
  exists chosen e,
    last (route Scenario.one_instance Scenario.all_down Scenario.get_users
            users).2
    = Some (mkAttempt 3 chosen (Some e))
    /\ (route Scenario.one_instance Scenario.all_down Scenario.get_users
          users).1.2
       = Some
           {| statusCode := 500;
              json :=
                ErrorReport "Service user unavailable after 3 attempts"
                  (message e) "req-1" |}.
Proof.
  destruct (route Scenario.one_instance Scenario.all_down Scenario.get_users
              users) as [[st' response] log] eqn:Hroute.
  destruct (exhausted_retries_report Scenario.one_instance Scenario.all_down
              Scenario.get_users "user" st' response log Hroute)
    as (chosen & e & _ & Hlast & Hresponse).
  { vm_compute in Hroute. injection Hroute as <- <- <-.
    repeat constructor; discriminate. }
  by exists chosen, e.
Defined.

End RetryClaims.

(* ===================================================================== *)
(** * Request counts, the audit event, and the stats snapshot *)
(* ===================================================================== *)

Section CounterClaims.
Import Js Discovery Gateway.

(** C5 as stated fails: the only instance refuses every connection, no
    forward succeeds, and its request count goes from 0 to 3. *)
Lemma failed_forwards_are_counted :
  let '(st', response, log) :=
    route Scenario.one_instance Scenario.all_down Scenario.get_users users in
  Forall (fun a => failure a <> None) log
  /\ count_of Scenario.one_instance "localhost:3002" = 0
  /\ count_of st' "localhost:3002" = 3.
Proof.
  vm_compute. split; [|by split]. repeat constructor; discriminate.
Qed.

(** C5, as the code has it.  In every state the gateway can reach, a
    [route] call raises the request count of an instance key by the number
    of attempts that selected that instance, whether or not the forward
    that followed succeeded; and no operation other than a routed request
    (registration, deregistration, health check, mode change) changes any
    request count. *)
Theorem requests_counted_per_selection
    (ops : list Op) (r : Route) (req : Request) (worlds : Z -> World)
    (key : string) :
  let st := run initial ops in
  let '(st', response, log) := route st worlds req r in
  count_of st' key = count_of st key + hits key log
  /\ forall op,
       is_request op = false -> requestCounts (step st op) = requestCounts st.
Proof.
  intros st.
  destruct (run_well_formed ops) as [Hstatic _]. fold st in Hstatic.
  pose proof (retry_loop_counts worlds req (route_service r) key
                (Z.to_nat maxAttempts) st 0 [] Hstatic) as Hcount.
  unfold route, proxyRequest.
  destruct (retry_loop _ _ _ _ _ _ _) as [[st' response] log].
  simpl in Hcount. split.
  - change (hits key []) with 0 in Hcount. lia.
  - intros op Hop. by apply step_keeps_tables.
Qed.

(** C9.  [publishEvent] always resolves, whatever the state of the queue
    manager and however the queue's [add] settles.  For [route], the
    answer, the log of attempts (and so the number of attempts used) and
    the routing state it leaves are the same whatever the queue manager
    holds and however the queue answers: two runs that differ only there
    cannot be told apart. *)
Theorem publish_never_fails_the_request
    (m : MessageQueue.MessageQueueManager) (q : MessageQueue.QueueWorld)
    (eventName : string) (d : list (string * string))
    (st st' : State) (worlds worlds' : Z -> World) (req : Request)
    (serviceName : string) :
  (MessageQueue.publishEvent m q eventName d).1.2 = Resolved ()
  /\ (routing_state st = routing_state st' ->
      (forall k, consul_health (worlds k) = consul_health (worlds' k)) ->
      (forall k u, wire (worlds k) u = wire (worlds' k) u) ->
      let a := proxyRequest st worlds req serviceName in
      let b := proxyRequest st' worlds' req serviceName in
      a.1.2 = b.1.2 /\ a.2 = b.2
      /\ routing_state a.1.1 = routing_state b.1.1).
Proof.
  split; [apply publishEvent_resolves |].
  intros Hstate Hconsul Hwire. unfold proxyRequest.
  by apply retry_loop_routing.
Qed.

Lemma publish_never_fails_the_request_witness :
  (proxyRequest Scenario.three_instances Scenario.all_up Scenario.get_users
     "user").1.2
  = (proxyRequest Scenario.three_instances Scenario.all_up_queue_down
       Scenario.get_users "user").1.2.
Proof.
  destruct (publish_never_fails_the_request
              (messageQueue Scenario.three_instances) Scenario.queue_down
              "request.proxied" []
              Scenario.three_instances Scenario.three_instances
              Scenario.all_up Scenario.all_up_queue_down
              Scenario.get_users "user") as [_ Hsame].
  apply Hsame; [reflexivity | intros k; reflexivity |
                intros k u; reflexivity].
Defined.

(** C7 on the code.  The snapshot's [services] field is never the object
    filled from discovery: the handler sends the answer before the function
    given to [.then] has run, so the field is the static [serviceRegistry],
    which holds nothing.  With A, B, C registered and healthy, discovery
    does return them, and the entries the late reaction builds are not in
    the snapshot. *)
Theorem stats_snapshot_omits_discovered_instances
    (ops : list Op) (consul : string -> Outcome (list ConsulService))
    (now : Z) :
  stats_services (stats_handler (run initial ops) consul now).1
  = StaticRegistry ∅
  /\ discoverServices (discovery Scenario.three_instances)
       (Rejected Scenario.refused) "user"
     = [fresh_instance 1700000000000 "A" 3002;
        fresh_instance 1700000000000 "B" 3003;
        fresh_instance 1700000000000 "C" 3004]
  /\ stats_services
       (stats_handler Scenario.three_instances
          (fun _ => Rejected Scenario.refused) now).1
     = StaticRegistry ∅
  /\ (stats_handler Scenario.three_instances
        (fun _ => Rejected Scenario.refused) now).2
     = [("user",
         [mkTarget "http://localhost:3002" true 0;
          mkTarget "http://localhost:3003" true 0;
          mkTarget "http://localhost:3004" true 0]);
        ("product", []); ("order", [])].
Proof.
  split.
  - destruct (run_well_formed ops) as [Hstatic _].
    unfold stats_handler. simpl. by rewrite Hstatic.
  - by vm_compute.
Qed.

End CounterClaims.

(* ===================================================================== *)
(** * The registry over its whole history *)
(* ===================================================================== *)

Section RegistryFacts.
Import Js Discovery Registry.

Lemma map_get_elem {V} (m : list (string * V)) k v :
  map_get m k = Some v -> (k, v) ∈ m.
Proof.
  induction m as [|[k' v'] m IH]; simpl; [done |].
  destruct (decide (k' = k)) as [->|].
  - intros [= ->]. apply list_elem_of_here.
  - intros H. apply list_elem_of_further. by apply IH.
Qed.

Lemma map_set_Forall {V} (P : string * V -> Prop) m k v :
  Forall P m -> P (k, v) -> Forall P (map_set m k v).
Proof.
  intros Hm Hkv. induction Hm as [|[k' v'] m Hhd Htl IH]; simpl.
  - by constructor.
  - destruct (decide (k' = k)) as [->|]; by constructor.
Qed.

Lemma map_set_same {V} (m : list (string * V)) k v :
  map_get m k = Some v -> map_set m k v = m.
Proof.
  induction m as [|[k' v'] m IH]; simpl; [done |].
  destruct (decide (k' = k)) as [->|]; [by intros [= ->] |].
  intros H. by rewrite IH.
Qed.

Lemma findIndex_lookup instances id i :
  findIndex instances id = Some i ->
  exists x, instances !! i = Some x /\ inst_id x = id.
Proof.
  unfold findIndex. intros H.
  apply fmap_Some in H as [[j x] [Hfind ->]]. simpl.
  apply list_find_Some in Hfind as (Hj & Hid & _). eauto.
Qed.

Lemma findIndex_None instances id :
  findIndex instances id = None <-> id ∉ ids instances.
Proof.
  unfold findIndex, ids. rewrite fmap_None, list_find_None, Forall_forall.
  rewrite list_elem_of_fmap. split.
  - intros Hno (x & -> & Hx). by apply (Hno x).
  - intros Hno x Hx Hid. apply Hno. eauto.
Qed.

Lemma findIndex_snoc instances x :
  inst_id x ∉ ids instances ->
  findIndex (instances ++ [x]) (inst_id x) = Some (length instances).
Proof.
  intros Hfresh%findIndex_None. unfold findIndex in *.
  apply fmap_None in Hfresh. rewrite list_find_app_r by done.
  simpl. rewrite decide_True by done. done.
Qed.

Lemma ids_reregister instances id i x :
  findIndex instances id = Some i -> inst_id x = id ->
  ids (<[i := x]> instances) = ids instances.
Proof.
  intros (y & Hy & Hid)%findIndex_lookup Hx. unfold ids.
  rewrite list_fmap_insert. apply list_insert_id.
  rewrite list_lookup_fmap, Hy. simpl. congruence.
Qed.

Lemma instances_of_fallbackRegister sd now name id port :
  instances_of (fallbackRegister sd now name id port) name
  = match findIndex (instances_of sd name) id with
    | Some i => <[i := fresh_instance now id port]> (instances_of sd name)
    | None => instances_of sd name ++ [fresh_instance now id port]
    end.
Proof.
  unfold instances_of, fallbackRegister. cbn [services].
  rewrite map_get_set_eq. simpl.
  destruct (map_get (services sd) name) as [l|] eqn:Hget; simpl.
  - by rewrite Hget.
  - by rewrite map_get_set_eq.
Qed.

Lemma instances_of_fallbackRegister_other sd now name id port other :
  other <> name ->
  instances_of (fallbackRegister sd now name id port) other
  = instances_of sd other.
Proof.
  intros Hother. unfold instances_of, fallbackRegister. cbn [services].
  rewrite map_get_set_ne by done.
  destruct (map_get (services sd) name); [done |].
  by rewrite map_get_set_ne.
Qed.

(** X1.  A registration in local mode keeps the order of the service's
    instances: re-registering an id that is there replaces that entry in
    place (same position, same sequence of ids), and an id that is not
    there is appended at the end. *)
Theorem registration_keeps_order
    (sd : ServiceDiscovery) (consul_register : Outcome unit) (now : Z)
    (name id : string) (port : Z) :
  useConsul sd = false ->
  let before := instances_of sd name in
  let after :=
    instances_of (registerService sd consul_register now name id port) name in
  (id ∈ ids before ->
   ids after = ids before
   /\ exists i,
        findIndex before id = Some i
        /\ after = <[i := fresh_instance now id port]> before)
  /\ (id ∉ ids before -> after = before ++ [fresh_instance now id port]).
Proof.
  intros Hlocal before after. subst after. unfold registerService.
  rewrite Hlocal, instances_of_fallbackRegister. fold before.
  destruct (findIndex before id) as [i|] eqn:Hfind.
  - split.
    + intros _. split; [by eapply ids_reregister | eauto].
    + intros Hfresh%findIndex_None. congruence.
  - split; [|done].
    intros Hin. apply findIndex_None in Hfind. done.
Qed.

Lemma registration_keeps_order_witness :
  ids
    (instances_of
       (registerService (run Sample.registry_ABC) (Resolved ())
          1700000000500 "user" "B" 3999) "user")
  = ["A"; "B"; "C"].
Proof.
  destruct (registration_keeps_order (run Sample.registry_ABC)
              (Resolved ()) 1700000000500 "user" "B" 3999 eq_refl)
    as [Hthere _].
  destruct Hthere as [Hids _]; [| exact Hids].
  vm_compute. apply list_elem_of_further, list_elem_of_here.
Defined.

(** X2.  Registering under one service name, in any mode and however
    Consul answers, does not change what discovery returns for any other
    service name. *)
Theorem registration_leaves_other_services
    (sd : ServiceDiscovery) (consul_register : Outcome unit)
    (consul_health : Outcome (list ConsulService)) (now : Z)
    (name id : string) (port : Z) (other : string) :
  other <> name ->
  discoverServices (registerService sd consul_register now name id port)
    consul_health other
  = discoverServices sd consul_health other.
Proof.
  intros Hother. unfold registerService.
  destruct (useConsul sd) eqn:Hmode; [destruct consul_register; [done |] |].
  all: unfold discoverServices; cbn [useConsul fallbackRegister];
    rewrite Hmode; try destruct consul_health; try done.
  all: unfold fallbackDiscover;
    change (default [] (map_get (services ?x) other)) with (instances_of x other);
    by rewrite instances_of_fallbackRegister_other.
Qed.

Lemma registration_leaves_other_services_witness :
  discoverServices
    (registerService (run Sample.registry_ABC) (Resolved ()) 1700000000500
       "order" "order-service-3006" 3006)
    (Rejected Scenario.refused) "user"
  = discoverServices (run Sample.registry_ABC) (Rejected Scenario.refused)
      "user".
Proof.
  apply (registration_leaves_other_services (run Sample.registry_ABC)
           (Resolved ()) (Rejected Scenario.refused) 1700000000500
           "order" "order-service-3006" 3006 "user").
  discriminate.
Defined.

(** ** Ids stay unique *)

Lemma fallbackRegister_unique sd now name id port :
  Forall (fun e => NoDup (ids e.2)) (services sd) ->
  Forall (fun e => NoDup (ids e.2))
    (services (fallbackRegister sd now name id port)).
Proof.
  intros Hsd.
  assert (NoDup (ids (instances_of sd name))) as Hbefore.
  { unfold instances_of.
    destruct (map_get (services sd) name) as [l|] eqn:Hget; simpl.
    - apply map_get_elem in Hget.
      by apply (proj1 (Forall_forall _ _) Hsd (name, l)).
    - constructor. }
  pose proof (instances_of_fallbackRegister sd now name id port) as Hafter.
  unfold instances_of in Hafter at 1.
  unfold fallbackRegister in *. cbn [services] in *.
  rewrite map_get_set_eq in Hafter. simpl in Hafter.
  set (services1 := match map_get (services sd) name with
                    | Some _ => services sd
                    | None => map_set (services sd) name []
                    end) in *.
  assert (Forall (fun e => NoDup (ids e.2)) services1) as Hservices1.
  { subst services1. destruct (map_get (services sd) name); [done |].
    apply map_set_Forall; [done |]. simpl. constructor. }
  apply map_set_Forall; [done |]. simpl. rewrite Hafter.
  destruct (findIndex (instances_of sd name) id) as [i|] eqn:Hfind.
  - by erewrite ids_reregister.
  - apply findIndex_None in Hfind. unfold ids in *. rewrite fmap_app.
    apply NoDup_app. split; [done |]. split.
    + intros x Hx Hin. apply list_elem_of_singleton in Hin. by subst.
    + simpl. apply NoDup_singleton.
Qed.

Lemma deregister_loop_unique entries id :
  Forall (fun e => NoDup (ids e.2)) entries ->
  Forall (fun e => NoDup (ids e.2)) (deregister_loop entries id).
Proof.
  induction 1 as [|[n l] entries Hl Hrest IH]; simpl; [done |].
  destruct (findIndex l id) as [i|]; constructor; try done.
  simpl in *. unfold ids. rewrite list_fmap_delete.
  eapply sublist_NoDup; [exact Hl | apply sublist_delete].
Qed.

Lemma ids_probe probe now (l : list ServiceInstance) : ids (probe_instance probe now <$> l) = ids l.
Proof.
  unfold ids. rewrite <- list_fmap_compose. apply list_fmap_ext.
  intros i x _. simpl. unfold probe_instance. by destruct (probe _ _).
Qed.

Lemma step_unique sd op :
  Forall (fun e => NoDup (ids e.2)) (services sd) ->
  Forall (fun e => NoDup (ids e.2)) (services (step sd op)).
Proof.
  intros Hsd. destruct op as [self|c now name id port|c id|probe now]; simpl.
  - by destruct self.
  - unfold registerService. destruct (useConsul sd); [destruct c |];
      try done; by apply fallbackRegister_unique.
  - by apply deregister_loop_unique.
  - unfold healthCheck. destruct (useConsul sd); [done |]. simpl.
    apply Forall_fmap. eapply Forall_impl; [done |].
    intros [n l] Hl. simpl in *. by rewrite ids_probe.
Qed.

(** X3.  Whatever the history of a registry (registrations,
    re-registrations, deregistrations, health checks, Consul answering or
    not), no service name ever holds two instances with the same id. *)
Theorem ids_unique_within_service (ops : list Op) (serviceName : string) :
  NoDup (ids (instances_of (run ops) serviceName)).
Proof.
  assert (Forall (fun e => NoDup (ids e.2)) (services (run ops))) as Hall.
  { unfold run. induction ops as [|op ops IH] using rev_ind.
    - constructor.
    - rewrite foldl_app. by apply step_unique. }
  unfold instances_of.
  destruct (map_get (services (run ops)) serviceName) as [l|] eqn:Hget.
  - apply map_get_elem in Hget.
    by apply (proj1 (Forall_forall _ _) Hall (serviceName, l)).
  - constructor.
Qed.

(** ** Deregistration *)

Lemma deregister_loop_unknown entries id :
  Forall (fun e => id ∉ ids e.2) entries ->
  deregister_loop entries id = entries.
Proof.
  induction 1 as [|[n l] entries Hl Hrest IH]; simpl; [done |].
  apply findIndex_None in Hl. simpl in Hl. rewrite Hl. by rewrite IH.
Qed.

Lemma deregister_loop_first before n l rest id i :
  Forall (fun e => id ∉ ids e.2) before ->
  findIndex l id = Some i ->
  deregister_loop (before ++ (n, l) :: rest) id
  = before ++ (n, delete i l) :: rest.
Proof.
  intros Hbefore Hfind.
  induction Hbefore as [|[n' l'] before Hl' Hrest IH]; simpl.
  - by rewrite Hfind.
  - apply findIndex_None in Hl'. simpl in Hl'. rewrite Hl'. by rewrite IH.
Qed.

(** X4.  Deregistering an id that no service holds leaves the registry
    exactly as it was. *)
Theorem deregister_unknown_id_changes_nothing
    (sd : ServiceDiscovery) (consul_deregister : Outcome unit) (id : string) :
  Forall (fun e => id ∉ ids e.2) (services sd) ->
  deregisterService sd consul_deregister id = sd.
Proof.
  intros Hunknown. unfold deregisterService.
  rewrite deregister_loop_unknown by done. by destruct sd.
Qed.

Lemma deregister_unknown_id_changes_nothing_witness :
  deregisterService (run Sample.registry_ABC) (Resolved ()) "gateway-3001"
  = run Sample.registry_ABC.
Proof.
  apply (deregister_unknown_id_changes_nothing (run Sample.registry_ABC)
           (Resolved ()) "gateway-3001").
  apply (bool_decide_unpack _). by vm_compute.
Defined.

(** X5.  [deregisterService] removes one instance only: in the first
    service name, in order of first registration, that holds the id, the
    instance with that id goes and the others keep their order; every
    other service name keeps all its instances, also one registered under
    the same id. *)
Theorem deregister_removes_first_holder_only
    (sd : ServiceDiscovery) (consul_deregister : Outcome unit) (id : string)
    (before : list (string * list ServiceInstance)) (serviceName : string)
    (instances : list ServiceInstance)
    (rest : list (string * list ServiceInstance)) :
  services sd = before ++ (serviceName, instances) :: rest ->
  Forall (fun e => id ∉ ids e.2) before ->
  id ∈ ids instances ->
  NoDup (ids instances) ->
  exists i,
    findIndex instances id = Some i
    /\ services (deregisterService sd consul_deregister id)
       = before ++ (serviceName, delete i instances) :: rest
    /\ (id ∉ ids (delete i instances))
    /\ length (delete i instances) = pred (length instances).
Proof.
  intros Hservices Hbefore Hin Hunique.
  destruct (findIndex instances id) as [i|] eqn:Hfind;
    [| by apply findIndex_None in Hfind].
  exists i. split; [done |]. split.
  { simpl. rewrite Hservices. by apply deregister_loop_first. }
  destruct (findIndex_lookup _ _ _ Hfind) as (x & Hx & Hid).
  split.
  - unfold ids in *. rewrite list_fmap_delete.
    assert ((inst_id <$> instances) !! i = Some id) as Hi.
    { rewrite list_lookup_fmap, Hx. simpl. by rewrite Hid. }
    intros Hstill. apply list_elem_of_lookup in Hstill as [j Hj].
    destruct (decide (j < i)%nat).
    + rewrite list_lookup_delete_lt in Hj by done.
      pose proof (NoDup_lookup _ _ _ _ Hunique Hi Hj). lia.
    + rewrite list_lookup_delete_ge in Hj by lia.
      pose proof (NoDup_lookup _ _ _ _ Hunique Hi Hj). lia.
  - rewrite length_delete; [lia | eauto].
Qed.

Lemma deregister_removes_first_holder_only_witness :
  services (deregisterService (run Sample.registry_shared_id) (Resolved ())
              "worker-1")
  = [("user", []);
     ("order", [fresh_instance 1700000000000 "worker-1" 3006])].
Proof.
  destruct (deregister_removes_first_holder_only
              (run Sample.registry_shared_id) (Resolved ()) "worker-1"
              [] "user" [fresh_instance 1700000000000 "worker-1" 3002]
              [("order", [fresh_instance 1700000000000 "worker-1" 3006])]
              eq_refl)
    as (i & Hfind & Hservices & _).
  - constructor.
  - apply list_elem_of_here.
  - apply NoDup_singleton.
  - vm_compute in Hfind. injection Hfind as <-. exact Hservices.
Defined.

Lemma deregister_loop_undoes_append m name l x id :
  inst_id x = id ->
  Forall (fun e => id ∉ ids e.2) m ->
  map_get m name = Some l ->
  deregister_loop (map_set m name (l ++ [x])) id = m.
Proof.
  intros Hid Hm. revert l.
  induction Hm as [|[n' l'] m Hl' Hrest IH]; intros l; simpl; [done |].
  destruct (decide (n' = name)) as [->|Hne].
  - intros [= ->]. simpl in *. subst id.
    rewrite findIndex_snoc by done. by rewrite delete_middle, app_nil_r.
  - intros Hget. simpl. apply findIndex_None in Hl'. simpl in Hl'.
    rewrite Hl'. by rewrite IH.
Qed.

(** X6.  In local mode, registering an id that the registry does not hold
    anywhere and then deregistering it gives every service name the
    instances it had before, in the same order. *)
Theorem register_then_deregister_restores
    (sd : ServiceDiscovery) (consul_register consul_deregister : Outcome unit)
    (now : Z) (name id : string) (port : Z) (other : string) :
  useConsul sd = false ->
  Forall (fun e => id ∉ ids e.2) (services sd) ->
  instances_of
    (deregisterService
       (registerService sd consul_register now name id port)
       consul_deregister id) other
  = instances_of sd other.
Proof.
  intros Hlocal Hfresh. unfold registerService. rewrite Hlocal.
  unfold instances_of, deregisterService, fallbackRegister.
  cbn [services].
  set (services1 := match map_get (services sd) name with
                    | Some _ => services sd
                    | None => map_set (services sd) name []
                    end).
  assert (Forall (fun e => id ∉ ids e.2) services1) as Hfresh1.
  { subst services1. destruct (map_get (services sd) name); [done |].
    apply map_set_Forall; [done |]. simpl. apply not_elem_of_nil. }
  assert (exists l, map_get services1 name = Some l) as [l Hl].
  { subst services1.
    destruct (map_get (services sd) name) as [l|] eqn:Hget; [eauto |].
    rewrite map_get_set_eq. eauto. }
  rewrite Hl. simpl.
  assert (findIndex l id = None) as ->.
  { apply findIndex_None. apply map_get_elem in Hl.
    by apply (proj1 (Forall_forall _ _) Hfresh1 (name, l)). }
  rewrite (deregister_loop_undoes_append services1 name l _ id) by done.
  subst services1.
  destruct (map_get (services sd) name) eqn:Hget; [done |].
  destruct (decide (name = other)) as [<-|Hne].
  - by rewrite map_get_set_eq, Hget.
  - by rewrite map_get_set_ne.
Qed.

Lemma register_then_deregister_restores_witness :
  instances_of
    (deregisterService
       (registerService (run Sample.registry_ABC) (Resolved ())
          1700000000500 "user" "D" 3005)
       (Resolved ()) "D") "user"
  = instances_of (run Sample.registry_ABC) "user".
Proof.
  apply (register_then_deregister_restores (run Sample.registry_ABC)
           (Resolved ()) (Resolved ()) 1700000000500 "user" "D" 3005 "user").
  - reflexivity.
  - apply (bool_decide_unpack _). by vm_compute.
Defined.

(** ** Health checks and discovery *)

Lemma map_get_values {V W} (f : V -> W) (m : list (string * V)) k :
  map_get ((fun e : string * V => (e.1, f e.2)) <$> m) k = f <$> map_get m k.
Proof.
  induction m as [|[k' v] m IH]; simpl; [done |].
  by destruct (decide (k' = k)).
Qed.

Lemma healthy_probe_instance probe now x :
  healthy (probe_instance probe now x) = passes probe x.
Proof. unfold probe_instance, passes. by destruct (probe _ _). Qed.

Lemma filter_healthy_probed probe now (l : list ServiceInstance) :
  filter (fun i => healthy i = true) (probe_instance probe now <$> l)
  = probe_instance probe now
      <$> filter (fun i => passes probe i = true) l.
Proof.
  induction l as [|x l IH]; [done |].
  rewrite fmap_cons, !filter_cons, healthy_probe_instance, IH.
  by destruct (decide (passes probe x = true)).
Qed.

(** X7.  In local mode a health check alone decides what discovery
    returns next: exactly the registered instances whose probe answered
    ok, in registration order, each stamped with the time of the check.
    An instance whose probe fails once is dropped at once, and one that
    was unhealthy is back as soon as its probe succeeds. *)
Theorem health_check_decides_discovery
    (sd : ServiceDiscovery) (probe : string -> Z -> Outcome bool) (now : Z)
    (consul_health : Outcome (list ConsulService)) (serviceName : string) :
  useConsul sd = false ->
  discoverServices (healthCheck sd probe now) consul_health serviceName
  = probe_instance probe now
      <$> filter (fun i => passes probe i = true)
            (instances_of sd serviceName).
Proof.
  intros Hlocal. unfold discoverServices, healthCheck. rewrite Hlocal.
  cbn [useConsul]. unfold fallbackDiscover. cbn [services].
  rewrite (map_get_values (fmap (probe_instance probe now))).
  unfold instances_of.
  destruct (map_get (services sd) serviceName) as [l|]; simpl; [|done].
  apply filter_healthy_probed.
Qed.

Lemma health_check_decides_discovery_witness :
  ids
    (discoverServices
       (healthCheck (run Sample.registry_ABC) Sample.only_3003 1700000010000)
       (Rejected Scenario.refused) "user")
  = ["B"].
Proof.
  rewrite (health_check_decides_discovery (run Sample.registry_ABC)
             Sample.only_3003 1700000010000 (Rejected Scenario.refused)
             "user" eq_refl).
  reflexivity.
Defined.

(** X8.  Every instance that [discoverServices] returns is marked
    healthy, in either mode and however Consul answers. *)
Theorem discovered_instances_are_healthy
    (sd : ServiceDiscovery) (consul_health : Outcome (list ConsulService))
    (serviceName : string) :
  Forall (fun i => healthy i = true)
    (discoverServices sd consul_health serviceName).
Proof.
  assert (Forall (fun i => healthy i = true) (fallbackDiscover sd serviceName))
    as Hlocal.
  { apply Forall_forall. intros x Hx.
    unfold fallbackDiscover in Hx. by apply list_elem_of_filter in Hx as [? _]. }
  unfold discoverServices.
  destruct (useConsul sd); [|done].
  destruct consul_health as [found|e]; [|done].
  apply Forall_fmap. by apply Forall_true.
Qed.

End RegistryFacts.

(* ===================================================================== *)
(** * The queue manager over its whole history *)
(* ===================================================================== *)

Section QueueRunFacts.
Import Js MessageQueue QueueRun.

Lemma events_queue_quiet m :
  quiet m -> quiet (events_queue m).1 /\ idle (events_queue m).2.
Proof.
  intros [Hjobs Hqueues]. unfold events_queue, getQueue.
  destruct (map_get (queues m) "events") as [queue|] eqn:Hget; simpl.
  - split; [done |]. apply map_get_elem in Hget.
    by apply (proj1 (Forall_forall _ _) Hqueues ("events", queue)).
  - split; [|by destruct (useRedis m)].
    split; [done |]. simpl.
    apply map_set_Forall; [done |]. by destruct (useRedis m).
Qed.

Lemma add_quiet m w queue jobName d :
  fallbackQueue_jobs m = None ->
  (add m w queue jobName d).1.1 = m /\ (add m w queue jobName d).2 = [].
Proof. intros Hjobs. unfold add. destruct queue; [done |]. by rewrite Hjobs. Qed.

Lemma publishEvent_quiet m w eventName d :
  fallbackQueue_jobs m = None ->
  (publishEvent m w eventName d).1.1 = (events_queue m).1
  /\ (publishEvent m w eventName d).2 = [].
Proof.
  intros Hjobs. unfold publishEvent.
  destruct (events_queue m) as [m1 eventQueue] eqn:Hevents.
  assert (fallbackQueue_jobs m1 = None) as Hjobs1.
  { unfold events_queue in Hevents.
    destruct (getQueue m "events"); injection Hevents as <- <-; done. }
  destruct (add_quiet m1 w eventQueue eventName
              {| event := eventName; data := d; timestamp := now w;
                 source := default "unknown" (SERVICE_NAME w) |} Hjobs1)
    as [Hm Hscheduled].
  destruct (add m1 w eventQueue eventName _) as [[m2 added] scheduled].
  simpl in *. by subst.
Qed.

Lemma step_quiet m op : quiet m -> quiet (step m op).
Proof.
  intros Hquiet. pose proof Hquiet as [Hjobs Hqueues].
  destruct op as [| |queueName|eventName|queueName first|w eventName d];
    simpl; try done.
  - split; [done |]. simpl.
    apply map_set_Forall; [done |]. by destruct (useRedis m).
  - unfold subscribeToEvents.
    destruct (events_queue_quiet m Hquiet) as [Hquiet1 _].
    destruct (events_queue m) as [m1 eventQueue]. simpl in *.
    by destruct eventQueue.
  - destruct (getQueue m queueName) as [[]|]; done.
  - destruct (publishEvent_quiet m w eventName d Hjobs) as [-> _].
    by apply events_queue_quiet.
Qed.

Lemma run_quiet ops : quiet (run ops).
Proof.
  unfold run. induction ops as [|op ops IH] using rev_ind.
  - by split.
  - rewrite foldl_app. by apply step_quiet.
Qed.

(** X9.  Whatever has been done to a queue manager through its public
    methods (queues created, handlers subscribed or passed to [process],
    events published, Redis connecting or failing), [processFallbackJob]
    runs no handler: it leaves every job as it is and writes no status.
    The functions given to [subscribeToEvents] and [process] are stored
    elsewhere than in the list it iterates. *)
Theorem subscribed_handlers_never_run
    (ops : list Op) (queueName : string) (job : Job) :
  processFallbackJob (run ops) queueName job = (job, []).
Proof.
  destruct (run_quiet ops) as [_ Hqueues]. unfold processFallbackJob.
  destruct (map_get (queues (run ops)) queueName) as [[|owner jobs ps]|]
    eqn:Hget; try done.
  apply map_get_elem in Hget.
  pose proof (proj1 (Forall_forall _ _) Hqueues _ Hget) as [_ Hps].
  simpl in Hps. by subst.
Qed.

(** X10.  In every state a queue manager can reach, [publishEvent]
    schedules no processing and stores no job in memory; and when the
    [events] queue is the in-memory one, the call leaves the manager
    exactly as it was: the event is lost, while the caller sees the
    promise resolve. *)
Theorem in_memory_publish_loses_the_event
    (ops : list Op) (w : QueueWorld) (eventName : string)
    (d : list (string * string)) :
  let published := publishEvent (run ops) w eventName d in
  published.1.2 = Resolved ()
  /\ published.2 = []
  /\ fallbackQueue_jobs published.1.1 = None
  /\ (forall owner jobs ps,
        getQueue (run ops) "events" = Some (FallbackQueue owner jobs ps) ->
        published.1.1 = run ops).
Proof.
  intros published. subst published.
  destruct (run_quiet ops) as [Hjobs Hqueues].
  destruct (publishEvent_quiet (run ops) w eventName d Hjobs) as [Hm Hs].
  split; [apply publishEvent_resolves |]. split; [done |].
  rewrite Hm. split.
  - unfold events_queue. by destruct (getQueue (run ops) "events").
  - intros owner jobs ps Hget. unfold events_queue. by rewrite Hget.
Qed.

Lemma in_memory_publish_loses_the_event_witness :
  (publishEvent
     (run [CreateQueue "events"; Subscribe "service.registered"])
     Scenario.queue_up "user.created" []).1.1
  = run [CreateQueue "events"; Subscribe "service.registered"].
Proof.
  destruct (in_memory_publish_loses_the_event
              [CreateQueue "events"; Subscribe "service.registered"]
              Scenario.queue_up "user.created" [])
    as (_ & _ & _ & Hsame).
  apply (Hsame "events" [] []). reflexivity.
Defined.

Lemma events_queue_keeps m queueName :
  is_Some (getQueue m queueName) ->
  getQueue (events_queue m).1 queueName = getQueue m queueName.
Proof.
  intros Hthere. unfold events_queue.
  destruct (getQueue m "events") as [queue|] eqn:Hevents; [done |].
  unfold getQueue in *. simpl.
  destruct (decide ("events" = queueName)) as [<-|Hne].
  - rewrite Hevents in Hthere. by destruct Hthere.
  - by rewrite map_get_set_ne.
Qed.

Lemma process_keeps_queues m queue first :
  queues (process m queue first) = queues m.
Proof. by destruct queue. Qed.

Lemma step_keeps_queue m op queueName :
  is_Some (getQueue m queueName) ->
  creates queueName op = false ->
  getQueue (step m op) queueName = getQueue m queueName.
Proof.
  intros Hthere Hop.
  destruct op as [| |created|eventName|processed first|w eventName d];
    simpl in *; try done.
  - apply bool_decide_eq_false in Hop. unfold getQueue. simpl.
    by rewrite map_get_set_ne.
  - unfold subscribeToEvents.
    pose proof (events_queue_keeps m queueName Hthere) as Hkeeps.
    destruct (events_queue m) as [m1 eventQueue]. simpl in *.
    unfold getQueue in *. by rewrite process_keeps_queues.
  - destruct (getQueue m processed) as [queue|]; [|done].
    unfold getQueue. by rewrite process_keeps_queues.
  - unfold publishEvent.
    pose proof (events_queue_keeps m queueName Hthere) as Hkeeps.
    destruct (events_queue m) as [m1 eventQueue]. simpl in *.
    unfold add.
    destruct eventQueue as [|owner jobs ps]; [done |].
    by destruct (fallbackQueue_jobs m1).
Qed.

(** X11.  A queue object, once created, is replaced only by another
    [createQueue] under the same name.  Publishing, subscribing, [process]
    and, in particular, Redis connecting or failing keep it: a queue
    created as in-memory queue before Redis answered stays in-memory after
    the manager has switched to Redis. *)
Theorem queue_kind_is_fixed_at_creation
    (m : MessageQueueManager) (ops : list Op) (queueName : string) :
  is_Some (getQueue m queueName) ->
  Forall (fun op => creates queueName op = false) ops ->
  getQueue (foldl step m ops) queueName = getQueue m queueName.
Proof.
  intros Hthere.
  induction ops as [|op ops IH] using rev_ind; intros Hops; [done |].
  apply Forall_app in Hops as [Hops Hop]. apply Forall_cons in Hop as [Hop _].
  rewrite foldl_app. simpl. rewrite step_keeps_queue; [by apply IH | | done].
  by rewrite IH.
Qed.

Lemma queue_kind_is_fixed_at_creation_witness :
  getQueue
    (foldl step (run [CreateQueue "events"])
       [Connect; Publish Scenario.queue_up "user.created" [];
        Subscribe "user.created"])
    "events"
  = Some (FallbackQueue "events" [] []).
Proof.
  rewrite (queue_kind_is_fixed_at_creation (run [CreateQueue "events"])
             [Connect; Publish Scenario.queue_up "user.created" [];
              Subscribe "user.created"] "events").
  - reflexivity.
  - by eexists.
  - repeat constructor.
Defined.

(** X12.  [job.error] is never cleared.  If any processor threw while
    [processFallbackJob] ran the processors, the job ends with an error
    message, also when a later processor succeeded and the final status is
    [completed]; a job that had no error and whose processors all
    succeeded ends with none. *)
Theorem job_error_is_never_cleared
    (processors : list Processor) (job : Job) :
  error job = None ->
  let result := run_processors processors job in
  is_Some (error result.1) <-> failed ∈ result.2.
Proof.
  intros Hclean.
  induction processors as [|p processors IH] using rev_ind.
  - simpl. rewrite Hclean. split; [by intros [] | by intros ?%not_elem_of_nil].
  - simpl in *. rewrite run_processors_snoc.
    destruct (run_processors processors job) as [before written].
    simpl in IH. unfold run_processor.
    destruct (p _) as [[]|e]; simpl.
    + rewrite IH, elem_of_app. split; [by left |].
      intros [?|Hin]; [done |].
      apply elem_of_cons in Hin as [?|Hin]; [done |].
      by apply list_elem_of_singleton in Hin.
    + split; [intros _ | by eauto].
      apply elem_of_app. right. apply list_elem_of_further, list_elem_of_here.
Qed.

Lemma job_error_is_never_cleared_witness :
  let result :=
    run_processors [Scenario.boom; Scenario.fine] Scenario.a_job in
  status result.1 = completed /\ is_Some (error result.1).
Proof.
  split; [reflexivity |].
  apply (job_error_is_never_cleared [Scenario.boom; Scenario.fine]
           Scenario.a_job eq_refl).
  vm_compute. apply list_elem_of_further, list_elem_of_here.
Defined.

End QueueRunFacts.

(* ===================================================================== *)
(** * A routed request as a whole *)
(* ===================================================================== *)

Section RequestFacts.
Import Js Discovery Gateway Observed.

Lemma try_block_answer st w req serviceName st1 response chosen :
  try_block st w req serviceName = (st1, Resolved response, chosen) ->
  exists u s d,
    chosen = Some u
    /\ wire w (u +:+ path req) = Reply s d
    /\ 200 <= s < 300
    /\ response = {| statusCode := s; json := Data (Decode d) |}.
Proof.
  destruct (getNextService st (consul_health w) serviceName)
    as [st0 [t|e]] eqn:Hsel.
  - destruct (try_block_selected st w req serviceName st0 t Hsel)
      as [m ->].
    destruct (wire w (url t +:+ path req)) as [s d|reason] eqn:Hwire;
      [|done].
    destruct (default_validateStatus s) eqn:Hs; [|done].
    intros [= <- <- <-]. exists (url t), s, d.
    by apply default_validateStatus_spec in Hs.
  - by rewrite (try_block_not_selected st w req serviceName st0 e Hsel).
Qed.

(** X13.  Every routed request is answered, after one, two or three
    attempts numbered from 1.  Every attempt before the last failed.  If
    the last attempt succeeded, the answer is the reply that this attempt
    received from the url it selected: the status of that reply, which is
    a 2xx, and [res.json] of the data decoded from its body.  Otherwise
    there were exactly three attempts and the answer is the gateway's own
    error object with status 500.  The gateway never answers a routed
    request with any other status. *)
Theorem request_is_answered_within_three_attempts
    (st : State) (worlds : Z -> World) (req : Request) (serviceName : string) :
  exists st' response earlier final,
    proxyRequest st worlds req serviceName
    = (st', Some response, earlier ++ [final])
    /\ (length earlier < 3)%nat
    /\ attempt <$> (earlier ++ [final])
       = Z.of_nat <$> seq 1 (S (length earlier))
    /\ Forall (fun a => is_Some (failure a)) earlier
    /\ match failure final with
       | None =>
           exists u s d,
             target final = Some u
             /\ wire (worlds (Z.of_nat (length earlier))) (u +:+ path req)
                = Reply s d
             /\ 200 <= s < 300
             /\ response
                = {| statusCode := s; json := Data (Decode d) |}
       | Some e =>
           length earlier = 2%nat
           /\ response = unavailable serviceName e req
           /\ statusCode response = 500
       end.
Proof.
  rewrite proxyRequest_cases.
  destruct (try_block st (worlds 0) req serviceName)
    as [[st1 [response1|e1]] c1] eqn:H1; simpl.
  { exists st1, response1, [], (mkAttempt 1 c1 None). simpl.
    repeat split; [lia | constructor | by eapply try_block_answer]. }
  destruct (try_block st1 (worlds 1) req serviceName)
    as [[st2 [response2|e2]] c2] eqn:H2; simpl.
  { exists st2, response2, [mkAttempt 1 c1 (Some e1)], (mkAttempt 2 c2 None).
    simpl. repeat split; [lia | by repeat constructor |
                          by eapply try_block_answer]. }
  destruct (try_block st2 (worlds 2) req serviceName)
    as [[st3 [response3|e3]] c3] eqn:H3; simpl.
  { exists st3, response3,
      [mkAttempt 1 c1 (Some e1); mkAttempt 2 c2 (Some e2)],
      (mkAttempt 3 c3 None).
    simpl. repeat split; [lia | by repeat constructor |
                          by eapply try_block_answer]. }
  exists st3, (unavailable serviceName e3 req),
    [mkAttempt 1 c1 (Some e1); mkAttempt 2 c2 (Some e2)],
    (mkAttempt 3 c3 (Some e3)).
  simpl. repeat split; [lia | by repeat constructor].
Qed.

Lemma getNextService_keeps_registry st consul serviceName :
  discovery (getNextService st consul serviceName).1 = discovery st
  /\ serviceRegistry (getNextService st consul serviceName).1
     = serviceRegistry st
  /\ messageQueue (getNextService st consul serviceName).1
     = messageQueue st.
Proof.
  unfold getNextService, selectFromDiscoveredServices,
    selectFromStaticRegistry.
  repeat (case_decide || case_match); done.
Qed.

Lemma try_block_keeps_registry st w req serviceName :
  discovery (try_block st w req serviceName).1.1 = discovery st
  /\ serviceRegistry (try_block st w req serviceName).1.1
     = serviceRegistry st.
Proof.
  pose proof (getNextService_keeps_registry st (consul_health w) serviceName)
    as (Hd & Hs & _).
  destruct (getNextService st (consul_health w) serviceName)
    as [st1 [t|e]] eqn:Hsel.
  - destruct (try_block_selected st w req serviceName st1 t Hsel)
      as [m ->]. done.
  - by rewrite (try_block_not_selected st w req serviceName st1 e Hsel).
Qed.

(** X14.  Routing a request never changes the registry, whatever happens
    to the forwards: in every state the gateway can reach, the instances,
    their health flags and the mode of the discovery facade are after the
    request what they were before, and the static [serviceRegistry] is
    still empty.  An instance whose forward failed is not marked unhealthy
    and not removed; only a health check or a deregistration does that. *)
Theorem routing_never_changes_the_registry
    (ops : list Op) (worlds : Z -> World) (req : Request)
    (serviceName : string) :
  let st := run initial ops in
  discovery (proxyRequest st worlds req serviceName).1.1 = discovery st
  /\ serviceRegistry st = ∅
  /\ serviceRegistry (proxyRequest st worlds req serviceName).1.1 = ∅.
Proof.
  intros st.
  destruct (run_well_formed ops) as [Hstatic _]. fold st in Hstatic.
  assert (well_formed (proxyRequest st worlds req serviceName).1.1)
    as [Hafter _].
  { unfold proxyRequest. apply retry_loop_preserves.
    - intros st0 w Hst0. by apply try_block_well_formed.
    - apply run_well_formed. }
  split; [|done].
  unfold proxyRequest.
  apply (retry_loop_preserves (fun st' => discovery st' = discovery st));
    [|done].
  intros st0 w Hd.
  destruct (try_block_keeps_registry st0 w req serviceName) as [Hd' _].
  congruence.
Qed.

(** ** One turn at a known cursor *)

Lemma turn_at_cursor st w req serviceName found c :
  well_formed st ->
  discoverServices (discovery st) (consul_health w) serviceName = found ->
  found <> [] ->
  cursor st serviceName = Num c ->
  0 <= c ->
  let n := Z.of_nat (length found) in
  exists st1 inst,
    found !! Z.to_nat (c mod n) = Some inst
    /\ try_block st w req serviceName
       = (st1,
          match wire w (instance_url inst +:+ path req) with
          | Reply s d =>
              if default_validateStatus s
              then Resolved {| statusCode := s; json := Data (Decode d) |}
              else
                Rejected
                  (mkError AxiosError
                     ("Request failed with status code " +:+ pretty s))
          | NoReply reason => Rejected (mkError AxiosError reason)
          end,
          Some (instance_url inst))
    /\ well_formed st1
    /\ discovery st1 = discovery st
    /\ cursor st1 serviceName = Num ((c + 1) mod n)
    /\ 0 <= (c + 1) mod n.
Proof.
  intros Hwf Hfound Hne Hcursor Hc n.
  destruct (select_at_cursor st serviceName found c Hne Hcursor Hc)
    as (inst & Hinst & Hselect).
  assert (getNextService st (consul_health w) serviceName
          = selectFromDiscoveredServices st serviceName found) as Hnext.
  { rewrite getNextService_discovered; by rewrite Hfound. }
  rewrite Hselect in Hnext.
  destruct (try_block_selected st w req serviceName _ _ Hnext) as [m Htry].
  pose proof (try_block_well_formed st w req serviceName Hwf) as Hwf1.
  rewrite Htry in Hwf1. simpl in Hwf1.
  eexists _, inst. split; [done |]. split; [exact Htry |].
  split; [done |]. split; [done |]. split.
  - unfold cursor. simpl. by rewrite lookup_insert_eq.
  - apply Z.mod_pos_bound. subst n. destruct found; [done | simpl; lia].
Qed.

Lemma url_at_here found c inst :
  found !! Z.to_nat (c mod Z.of_nat (length found)) = Some inst ->
  url_at found c 0 = Some (instance_url inst).
Proof. unfold url_at. rewrite Z.add_0_r. by intros ->. Qed.

Lemma url_at_next found c k :
  found <> [] ->
  url_at found ((c + 1) mod Z.of_nat (length found)) k
  = url_at found c (k + 1).
Proof.
  intros Hne. unfold url_at. do 3 f_equal.
  assert (0 < Z.of_nat (length found)) by (destruct found; [done | simpl; lia]).
  rewrite Z.add_mod_idemp_l by lia. f_equal. lia.
Qed.

(** ** Requests in a row *)

Lemma hits_single key chosen failed :
  hits key [mkAttempt 1 chosen failed]
  = if decide (chosen = Some ("http://" +:+ key)) then 1 else 0.
Proof.
  unfold hits. rewrite filter_cons, filter_nil. simpl.
  by destruct (decide _).
Qed.

Lemma route_answered_at_once s worlds req r found c :
  well_formed s ->
  discoverServices (discovery s) (consul_health (worlds 0)) (route_service r)
  = found ->
  found <> [] ->
  cursor s (route_service r) = Num c ->
  0 <= c ->
  (forall u, exists sc d, wire (worlds 0) u = Reply sc d /\ 200 <= sc < 300) ->
  let n := Z.of_nat (length found) in
  exists s1 response,
    route s worlds req r
    = (s1, Some response, [mkAttempt 1 (url_at found c 0) None])
    /\ well_formed s1
    /\ discovery s1 = discovery s
    /\ cursor s1 (route_service r) = Num ((c + 1) mod n)
    /\ 0 <= (c + 1) mod n
    /\ forall key,
         count_of s1 key
         = count_of s key
           + (if decide (url_at found c 0 = Some ("http://" +:+ key))
              then 1 else 0).
Proof.
  intros Hwf Hfound Hne Hcursor Hc Hwire n.
  destruct (turn_at_cursor s (worlds 0) req (route_service r) found c
              Hwf Hfound Hne Hcursor Hc)
    as (s1 & inst & Hinst & Htry & Hwf1 & Hd1 & Hc1 & Hpos1).
  destruct (Hwire (instance_url inst +:+ path req)) as (sc & d & Hreply & Hsc).
  rewrite Hreply in Htry.
  rewrite (proj2 (default_validateStatus_spec sc) Hsc) in Htry.
  assert (route s worlds req r
          = (s1, Some {| statusCode := sc; json := Data (Decode d) |},
             [mkAttempt 1 (url_at found c 0) None])) as Hroute.
  { unfold route. rewrite proxyRequest_cases, Htry. simpl.
    by rewrite (url_at_here found c inst Hinst). }
  exists s1, {| statusCode := sc; json := Data (Decode d) |}.
  split; [done |]. split; [done |]. split; [done |]. split; [done |].
  split; [done |]. intros key.
  destruct Hwf as [Hstatic _].
  pose proof (retry_loop_counts worlds req (route_service r) key
                (Z.to_nat maxAttempts) s 0 [] Hstatic) as Hcount.
  unfold route, proxyRequest in Hroute. rewrite Hroute in Hcount.
  simpl in Hcount. rewrite hits_single in Hcount.
  change (hits key []) with 0 in Hcount. lia.
Qed.

Lemma serve_rotates worlds req r found :
  found <> [] ->
  (forall u, exists sc d, wire (worlds 0) u = Reply sc d /\ 200 <= sc < 300) ->
  forall (k : nat) s c,
    well_formed s ->
    discoverServices (discovery s) (consul_health (worlds 0))
      (route_service r) = found ->
    cursor s (route_service r) = Num c ->
    0 <= c ->
    let result := serve s (replicate k (r, req, worlds)) in
    first_targets result.2
    = (fun i => url_at found c (Z.of_nat i)) <$> seq 0 k
    /\ Forall (fun answered => length answered.2 = 1%nat) result.2
    /\ cursor result.1 (route_service r)
       = match k with
         | O => Num c
         | S _ => Num ((c + Z.of_nat k) mod Z.of_nat (length found))
         end
    /\ forall key,
         count_of result.1 key
         = count_of s key
           + Z.of_nat
               (length
                  (filter (fun t => t = Some ("http://" +:+ key))
                     (first_targets result.2))).
Proof.
  intros Hne Hwire. induction k as [|k IH]; intros s c Hwf Hfound Hcursor Hc.
  { simpl. repeat split; [constructor | done | intros; simpl; lia]. }
  destruct (route_answered_at_once s worlds req r found c
              Hwf Hfound Hne Hcursor Hc Hwire)
    as (s1 & response & Hroute & Hwf1 & Hd1 & Hc1 & Hpos1 & Hcount1).
  specialize (IH s1 _ Hwf1 ltac:(by rewrite Hd1) Hc1 Hpos1).
  simpl in IH. simpl. rewrite Hroute.
  destruct (serve s1 (replicate k (r, req, worlds))) as [s2 served].
  destruct IH as (Htargets & Hone & Hlast & Hcounts). simpl in *.
  assert (0 < Z.of_nat (length found))
    by (destruct found; [done | simpl; lia]).
  split; [|split; [|split]].
  - unfold first_targets in *. simpl. f_equal.
    rewrite Htargets, <- fmap_S_seq, <- list_fmap_compose.
    apply list_fmap_ext. intros i j _. simpl.
    rewrite url_at_next by done. f_equal. lia.
  - by constructor.
  - rewrite Hlast. destruct k as [|k]; [done |].
    rewrite Z.add_mod_idemp_l by lia. do 2 f_equal. lia.
  - intros key. rewrite Hcounts, Hcount1.
    unfold first_targets. simpl. rewrite filter_cons.
    destruct (decide _); simpl; lia.
Qed.

(** X16.  Requests served one after the other rotate over the instances:
    if discovery keeps returning the same [n] instances and every forward
    is answered with a 2xx, then each request is answered at its first
    attempt, the [i]-th request (from 0) goes to the instance at position
    [(cursor + i) mod n], and after [k > 0] requests the cursor is
    [(cursor + k) mod n]. *)
Theorem successive_requests_rotate
    (ops : list Op) (r : Route) (req : Request) (worlds : Z -> World)
    (k : nat) :
  let st := run initial ops in
  let found :=
    discoverServices (discovery st) (consul_health (worlds 0))
      (route_service r) in
  found <> [] ->
  (forall u, exists sc d, wire (worlds 0) u = Reply sc d /\ 200 <= sc < 300) ->
  exists c,
    cursor st (route_service r) = Num c /\ 0 <= c
    /\ let result := serve st (replicate k (r, req, worlds)) in
       first_targets result.2
       = (fun i => url_at found c (Z.of_nat i)) <$> seq 0 k
       /\ Forall (fun answered => length answered.2 = 1%nat) result.2
       /\ ((0 < k)%nat ->
           cursor result.1 (route_service r)
           = Num ((c + Z.of_nat k) mod Z.of_nat (length found))).
Proof.
  intros st found Hne Hwire.
  destruct (reachable_cursor ops r) as (c & Hcursor & Hc).
  exists c. split; [done |]. split; [done |].
  destruct (serve_rotates worlds req r found Hne Hwire k st c
              (run_well_formed ops) eq_refl Hcursor Hc)
    as (Htargets & Hone & Hlast & _).
  split; [done |]. split; [done |].
  intros Hk. rewrite Hlast. by destruct k; [lia |].
Qed.

Lemma successive_requests_rotate_witness :
  first_targets
    (serve Scenario.three_instances
       (replicate 5 (users, Scenario.get_users, Scenario.all_up))).2
  = [Some "http://localhost:3002"; Some "http://localhost:3003";
     Some "http://localhost:3004"; Some "http://localhost:3002";
     Some "http://localhost:3003"].
Proof.
  destruct (successive_requests_rotate Scenario.register_ABC users
              Scenario.get_users Scenario.all_up 5)
    as (c & Hcursor & _ & Htargets & _).
  - discriminate.
  - intros u. exists 200, "[]". split; [reflexivity | lia].
  - assert (c = 0) as -> by (vm_compute in Hcursor; congruence).
    exact Htargets.
Defined.

Lemma rotate_Permutation {A} (n : nat) (l : list A) : rotate n l ≡ₚ l.
Proof.
  unfold rotate. rewrite Permutation_app_comm. by rewrite take_drop.
Qed.

Lemma full_round_targets (found : list ServiceInstance) c :
  found <> [] -> 0 <= c ->
  (fun i => url_at found c (Z.of_nat i)) <$> seq 0 (length found)
  = (fun inst => Some (instance_url inst))
      <$> rotate (Z.to_nat (c mod Z.of_nat (length found))) found.
Proof.
  intros Hne Hc.
  assert (0 < Z.of_nat (length found))
    by (destruct found; [done | simpl; lia]).
  apply list_eq. intros i. rewrite !list_lookup_fmap.
  destruct (decide (i < length found)%nat) as [Hi|Hi].
  - rewrite lookup_seq_lt by done. simpl.
    rewrite lookup_rotate_r by done. unfold url_at, rotate_nat_add.
    rewrite Z2Nat.id by (apply Z.mod_pos_bound; lia).
    rewrite Z.add_mod_idemp_l by lia.
    destruct (lookup_lt_is_Some_2 found
                (Z.to_nat ((c + Z.of_nat i) mod Z.of_nat (length found))))
      as [x ->]; [|done].
    pose proof (Z.mod_pos_bound (c + Z.of_nat i) (Z.of_nat (length found))).
    lia.
  - rewrite lookup_seq_ge by lia. simpl.
    rewrite lookup_ge_None_2; [done |]. rewrite length_rotate. lia.
Qed.

Lemma count_targets_of_key key (found : list ServiceInstance) :
  length
    (filter (fun t => t = Some ("http://" +:+ key))
       ((fun inst => Some (instance_url inst)) <$> found))
  = length (filter (fun inst => serviceKey inst = key) found).
Proof.
  induction found as [|x found IH]; [done |].
  rewrite fmap_cons, !filter_cons.
  destruct (decide (serviceKey x = key)) as [Hkey|Hkey].
  - rewrite decide_True; [simpl; by rewrite IH |].
    unfold instance_url. by rewrite Hkey.
  - rewrite decide_False; [done |].
    unfold instance_url. intros [= Heq]. by apply (inj _) in Heq.
Qed.

(** X17.  One full round is fair.  If discovery keeps returning the same
    [n] instances and every forward is answered with a 2xx, then [n]
    requests in a row, from whatever cursor, go to each of the [n]
    positions exactly once, and the request count of every key
    ["address:port"] rises by the number of discovered instances with that
    key (by one when the instances have distinct addresses). *)
Theorem one_round_reaches_every_instance_once
    (ops : list Op) (r : Route) (req : Request) (worlds : Z -> World) :
  let st := run initial ops in
  let found :=
    discoverServices (discovery st) (consul_health (worlds 0))
      (route_service r) in
  found <> [] ->
  (forall u, exists sc d, wire (worlds 0) u = Reply sc d /\ 200 <= sc < 300) ->
  let result := serve st (replicate (length found) (r, req, worlds)) in
  first_targets result.2
    ≡ₚ (fun inst => Some (instance_url inst)) <$> found
  /\ forall key,
       count_of result.1 key
       = count_of st key
         + Z.of_nat
             (length (filter (fun inst => serviceKey inst = key) found)).
Proof.
  intros st found Hne Hwire result.
  destruct (reachable_cursor ops r) as (c & Hcursor & Hc).
  destruct (serve_rotates worlds req r found Hne Hwire (length found) st c
              (run_well_formed ops) eq_refl Hcursor Hc)
    as (Htargets & _ & _ & Hcounts).
  fold result in Htargets, Hcounts.
  assert (first_targets result.2
            ≡ₚ (fun inst => Some (instance_url inst)) <$> found) as Hperm.
  { rewrite Htargets, full_round_targets by done.
    by rewrite rotate_Permutation. }
  split; [done |]. intros key.
  rewrite Hcounts, <- count_targets_of_key. by rewrite Hperm.
Qed.

Lemma one_round_reaches_every_instance_once_witness :
  let result :=
    serve Scenario.three_instances
      (replicate 3 (users, Scenario.get_users, Scenario.all_up)) in
  count_of result.1 "localhost:3003"
  = count_of Scenario.three_instances "localhost:3003" + 1.
Proof.
  destruct (one_round_reaches_every_instance_once Scenario.register_ABC
              users Scenario.get_users Scenario.all_up)
    as [_ Hcounts].
  - discriminate.
  - intros u. exists 200, "[]". split; [reflexivity | lia].
  - exact (Hcounts "localhost:3003").
Defined.

(** ** The total of the stats snapshot *)

Lemma total_insert (m : gmap string Z) k x :
  m !! k = None -> total (<[k := x]> m) = total m + x.
Proof.
  intros Hk. unfold total.
  rewrite map_fold_insert_L; [done | intros; lia | done].
Qed.

Lemma total_count_once (m : gmap string Z) k :
  total (<[k := default 0 (m !! k) + 1]> m) = total m + 1.
Proof.
  destruct (m !! k) as [v|] eqn:Hk; simpl.
  - rewrite <- (insert_delete_id m k v Hk) at 2.
    rewrite <- insert_delete_eq.
    rewrite !total_insert by apply lookup_delete_eq. lia.
  - rewrite total_insert by done. lia.
Qed.

Lemma selections_snoc log a :
  selections (log ++ [a])
  = selections log + (if decide (is_Some (target a)) then 1 else 0).
Proof.
  unfold selections. rewrite filter_app, length_app, filter_cons, filter_nil.
  destruct (decide _); simpl; lia.
Qed.

Lemma try_block_total st w req serviceName :
  serviceRegistry st = ∅ ->
  let t := try_block st w req serviceName in
  total (requestCounts t.1.1)
  = total (requestCounts st)
    + (if decide (is_Some t.2) then 1 else 0).
Proof.
  intros Hstatic.
  destruct (getNextService st (consul_health w) serviceName)
    as [st1 [t|e]] eqn:Hsel.
  - destruct (getNextService_counts_once _ _ _ _ _ Hstatic Hsel)
      as (_ & _ & _ & inst & _ & _ & Hcounts).
    destruct (try_block_selected st w req serviceName st1 t Hsel)
      as [m ->]. simpl.
    rewrite Hcounts. unfold count_of. apply total_count_once.
  - destruct (getNextService_counts_once _ _ _ _ _ Hstatic Hsel)
      as (_ & _ & _ & Hcounts).
    rewrite (try_block_not_selected st w req serviceName st1 e Hsel).
    simpl. rewrite Hcounts. lia.
Qed.

Lemma retry_loop_total worlds req serviceName :
  forall fuel st attempts log,
    serviceRegistry st = ∅ ->
    let result := retry_loop fuel st worlds req serviceName attempts log in
    total (requestCounts result.1.1) + selections log
    = total (requestCounts st) + selections result.2.
Proof.
  induction fuel as [|fuel IH]; intros st attempts log Hstatic; [done |].
  simpl. destruct (decide (attempts < maxAttempts)); [|done].
  pose proof (try_block_total st (worlds attempts) req serviceName Hstatic)
    as Htotal.
  destruct (try_block_keeps_registry st (worlds attempts) req serviceName)
    as [_ Hstatic1].
  destruct (try_block st (worlds attempts) req serviceName)
    as [[st1 [response|e]] chosen]; simpl in *.
  - rewrite selections_snoc. simpl. lia.
  - destruct (decide (attempts + 1 = maxAttempts)); simpl.
    + rewrite selections_snoc. simpl. lia.
    + specialize (IH st1 (attempts + 1)
                    (log ++ [mkAttempt (attempts + 1) chosen (Some e)])
                    ltac:(congruence)).
      simpl in IH. rewrite selections_snoc in IH. simpl in IH. lia.
Qed.

(** X18.  The [totalRequests] of the stats snapshot counts selections: in
    every state the gateway can reach, a routed request raises it by the
    number of its attempts that selected an instance (one per attempt when
    discovery returns instances, none when it returns nothing), whatever
    became of the forwards. *)
Theorem total_requests_counts_selections
    (ops : list Op) (r : Route) (req : Request) (worlds : Z -> World)
    (consul : string -> Outcome (list ConsulService)) (now : Z) :
  let st := run initial ops in
  let '(st', response, log) := route st worlds req r in
  totalRequests (stats_handler st' consul now).1
  = totalRequests (stats_handler st consul now).1 + selections log.
Proof.
  intros st.
  destruct (run_well_formed ops) as [Hstatic _]. fold st in Hstatic.
  pose proof (retry_loop_total worlds req (route_service r)
                (Z.to_nat maxAttempts) st 0 [] Hstatic) as Htotal.
  unfold route, proxyRequest.
  destruct (retry_loop _ _ _ _ _ _ _) as [[st' response] log].
  simpl in Htotal. change (selections []) with 0 in Htotal.
  unfold stats_handler. simpl. unfold total in Htotal. lia.
Qed.

(** ** The audit event *)

Lemma try_block_queue st w req serviceName :
  messageQueue (try_block st w req serviceName).1.1 = messageQueue st
  \/ exists eventName d,
       messageQueue (try_block st w req serviceName).1.1
       = (MessageQueue.publishEvent (messageQueue st) (queue_world w)
            eventName d).1.1.
Proof.
  pose proof (getNextService_keeps_registry st (consul_health w) serviceName)
    as (_ & _ & Hqueue).
  unfold try_block.
  destruct (getNextService st (consul_health w) serviceName)
    as [st1 [t|e]]; simpl in *; [|by left].
  right. rewrite Hqueue.
  match goal with
  | |- context [MessageQueue.publishEvent ?m ?q ?n ?d] =>
      exists n, d;
      destruct (MessageQueue.publishEvent m q n d)
        as [[m' published] scheduled]
  end.
  destruct published; [|done]. simpl.
  by destruct (axios _ _).
Qed.

Lemma publishEvent_in_memory m w eventName d :
  MessageQueue.getQueue m "events"
  = Some (MessageQueue.FallbackQueue "events" [] []) ->
  MessageQueue.fallbackQueue_jobs m = None ->
  (MessageQueue.publishEvent m w eventName d).1.1 = m.
Proof.
  intros Hevents Hjobs.
  destruct (publishEvent_quiet m w eventName d Hjobs) as [-> _].
  unfold MessageQueue.events_queue. by rewrite Hevents.
Qed.

Lemma try_block_drops_audit st w req serviceName :
  MessageQueue.getQueue (messageQueue st) "events"
  = Some (MessageQueue.FallbackQueue "events" [] []) ->
  MessageQueue.fallbackQueue_jobs (messageQueue st) = None ->
  messageQueue (try_block st w req serviceName).1.1 = messageQueue st.
Proof.
  intros Hevents Hjobs.
  destruct (try_block_queue st w req serviceName)
    as [Hsame|(eventName & d & ->)]; [done |].
  by apply publishEvent_in_memory.
Qed.

Lemma proxyRequest_drops_audit st worlds req serviceName :
  MessageQueue.getQueue (messageQueue st) "events"
  = Some (MessageQueue.FallbackQueue "events" [] []) ->
  MessageQueue.fallbackQueue_jobs (messageQueue st) = None ->
  messageQueue (proxyRequest st worlds req serviceName).1.1 = messageQueue st.
Proof.
  intros Hevents Hjobs. unfold proxyRequest.
  apply (retry_loop_preserves
           (fun st' => messageQueue st' = messageQueue st)); [|done].
  intros st0 w Hsame.
  rewrite try_block_drops_audit; by rewrite Hsame.
Qed.

Lemma reachable_events_queue ops :
  MessageQueue.getQueue (messageQueue (run initial ops)) "events"
  = Some (MessageQueue.FallbackQueue "events" [] [])
  /\ MessageQueue.fallbackQueue_jobs (messageQueue (run initial ops)) = None.
Proof.
  unfold run. induction ops as [|op ops IH] using rev_ind; [done |].
  rewrite foldl_app. simpl. destruct IH as [Hevents Hjobs].
  destruct op; try done.
  simpl. unfold route. by rewrite proxyRequest_drops_audit.
Qed.

(** X19.  The gateway's audit events go nowhere.  The [events] queue that
    [server.js] creates while it loads is the in-memory one, and it stays
    the [events] queue in every state the gateway can reach, also after
    Redis has connected; a routed request leaves the queue manager exactly
    as it found it: the [request.proxied] event of each attempt is neither
    stored nor scheduled nor handed to a broker. *)
Theorem gateway_audit_events_are_dropped
    (ops : list Op) (worlds : Z -> World) (req : Request)
    (serviceName : string) :
  let st := run initial ops in
  MessageQueue.getQueue (messageQueue st) "events"
  = Some (MessageQueue.FallbackQueue "events" [] [])
  /\ messageQueue (proxyRequest st worlds req serviceName).1.1
     = messageQueue st.
Proof.
  intros st. destruct (reachable_events_queue ops) as [Hevents Hjobs].
  split; [done |]. by apply proxyRequest_drops_audit.
Qed.

(** ** Names and registrations outside the three routes *)

(** X20.  The gateway registering itself (as [api-gateway]) changes
    nothing for routing: what discovery returns for the three routed
    services, the cursors and the request counts are as before. *)
Theorem gateway_registration_leaves_routing
    (st : State) (consul_register : Outcome unit)
    (consul_health : Outcome (list ConsulService)) (now : Z) (r : Route) :
  let st' := registerGateway st consul_register now in
  discoverServices (discovery st') consul_health (route_service r)
  = discoverServices (discovery st) consul_health (route_service r)
  /\ currentIndex st' = currentIndex st
  /\ requestCounts st' = requestCounts st.
Proof.
  intros st'. split; [|done].
  apply registration_leaves_other_services. by destruct r.
Qed.

Lemma turn_without_cursor st w req serviceName :
  serviceRegistry st = ∅ ->
  cursor st serviceName = NaN ->
  exists st1 e,
    try_block st w req serviceName = (st1, Rejected e, None)
    /\ serviceRegistry st1 = ∅
    /\ cursor st1 serviceName = NaN
    /\ requestCounts st1 = requestCounts st.
Proof.
  intros Hstatic Hcursor.
  assert (exists st1 e,
            getNextService st (consul_health w) serviceName
            = (st1, Rejected e)
            /\ serviceRegistry st1 = ∅
            /\ cursor st1 serviceName = NaN
            /\ requestCounts st1 = requestCounts st) as Hnext.
  { unfold getNextService. destruct (decide _).
    - unfold selectFromDiscoveredServices.
      destruct (decide _); [by eauto 10 |].
      rewrite Hcursor. simpl. eexists _, _. split; [done |].
      split; [done |]. split; [|done].
      unfold cursor. simpl. by rewrite lookup_insert_eq.
    - unfold selectFromStaticRegistry. rewrite Hstatic, lookup_empty.
      by eauto 10. }
  destruct Hnext as (st1 & e & Hsel & Hrest).
  exists st1, e. split; [|done]. by apply try_block_not_selected.
Qed.

(** X21.  A service name without a route is never served.  The cursor
    table has entries for [user], [product] and [order] only; for any other
    name, in every state the gateway can reach and whatever discovery
    returns (also healthy instances), [proxyRequest] fails all three turns
    before selecting an instance, forwards nothing, counts nothing, and
    answers with its own 500. *)
Theorem name_without_route_is_never_served
    (ops : list Op) (serviceName : string) (worlds : Z -> World)
    (req : Request) :
  (forall r, route_service r <> serviceName) ->
  currentIndex (run initial ops) !! serviceName = None
  /\ exists st' e1 e2 e3,
       proxyRequest (run initial ops) worlds req serviceName
       = (st', Some (unavailable serviceName e3 req),
          [mkAttempt 1 None (Some e1); mkAttempt 2 None (Some e2);
           mkAttempt 3 None (Some e3)])
       /\ requestCounts st' = requestCounts (run initial ops).
Proof.
  intros Hunrouted.
  assert (currentIndex (run initial ops) !! serviceName = None) as Hnone.
  { unfold run. induction ops as [|op ops IH] using rev_ind.
    - simpl. rewrite !lookup_insert_ne, lookup_singleton_ne; [done | ..].
      + apply (Hunrouted users).
      + apply (Hunrouted products).
      + apply (Hunrouted orders).
    - rewrite foldl_app. simpl. destruct op; try done.
      simpl. unfold route, proxyRequest.
      apply (retry_loop_preserves
               (fun st' => currentIndex st' !! serviceName = None));
        [|done].
      intros st0 w Hst0.
      pose proof (Hunrouted r) as Hr. revert Hst0 Hr.
      generalize (route_service r). intros routed Hst0 Hr.
      unfold try_block, getNextService, selectFromDiscoveredServices,
        selectFromStaticRegistry.
      repeat (case_decide || case_match); simplify_eq; simpl;
        try done; by rewrite lookup_insert_ne. }
  split; [done |].
  destruct (run_well_formed ops) as [Hstatic _].
  assert (cursor (run initial ops) serviceName = NaN) as Hcursor
    by (unfold cursor; by rewrite Hnone).
  rewrite proxyRequest_cases.
  destruct (turn_without_cursor _ (worlds 0) req serviceName Hstatic Hcursor)
    as (st1 & e1 & -> & Hstatic1 & Hcursor1 & Hcounts1).
  simpl.
  destruct (turn_without_cursor _ (worlds 1) req serviceName Hstatic1 Hcursor1)
    as (st2 & e2 & -> & Hstatic2 & Hcursor2 & Hcounts2).
  simpl.
  destruct (turn_without_cursor _ (worlds 2) req serviceName Hstatic2 Hcursor2)
    as (st3 & e3 & -> & _ & _ & Hcounts3).
  simpl. exists st3, e1, e2, e3. split; [done | congruence].
Qed.

Lemma name_without_route_is_never_served_witness :
  exists st' e1 e2 e3,
    proxyRequest
      (run initial
         [RegisterService (Resolved ()) 1700000000000 "widget" "A" 3002])
      Scenario.all_up Scenario.get_users "widget"
    = (st', Some (unavailable "widget" e3 Scenario.get_users),
       [mkAttempt 1 None (Some e1); mkAttempt 2 None (Some e2);
        mkAttempt 3 None (Some e3)])
    /\ requestCounts st' = ∅.
Proof.
  destruct (name_without_route_is_never_served
              [RegisterService (Resolved ()) 1700000000000 "widget" "A" 3002]
              "widget" Scenario.all_up Scenario.get_users)
    as [_ Hserved].
  - intros r. by destruct r.
  - exact Hserved.
Defined.

End RequestFacts.

(* ===================================================================== *)
(** * Jobs in local mode *)
(* ===================================================================== *)

Section LocalJobs.
Import Js MessageQueue QueueRun.

(** C8 on the code.  Local mode, through the public methods only: the
    [events] queue is created, a handler [p] is given to its [process], an
    event is subscribed to and one is published.  The handler is recorded,
    but on [this.fallbackQueue], not on the queue object.  Publishing
    resolves and leaves the manager as it was: no job is stored and no
    processing is scheduled, so no job ever leaves [waiting].  And were
    [processFallbackJob] run on a job all the same, it would call no
    handler and write no status.  Whether [p] throws never decides
    anything. *)
Theorem registered_handler_never_decides_the_status
    (p : Processor) (subscribed published : string)
    (d : list (string * string)) (w : QueueWorld) (job : Job) :
  let m :=
    run [CreateQueue "events"; Process "events" (ArgFunction p);
         Subscribe subscribed] in
  useRedis m = false
  /\ getQueue m "events" = Some (FallbackQueue "events" [] [])
  /\ fallbackQueue_processors m
     = Some [ArgFunction p; ArgName subscribed]
  /\ publishEvent m w published d = (m, Resolved (), [])
  /\ processFallbackJob m "events" job = (job, [])
  /\ status (processFallbackJob m "events" job).1 = status job.
Proof.
  intros m. subst m.
  split; [reflexivity |]. split; [reflexivity |]. split; [reflexivity |].
  split.
  - unfold publishEvent, events_queue, getQueue. simpl. reflexivity.
  - split; reflexivity.
Qed.

End LocalJobs.
